(** * DendroPy taxon management: [dendropy/dataobject/taxon.py]

    A shallow embedding of [TaxonSet], [Taxon] and [new_taxon_set], with the
    Python object store made explicit: [Taxon] and [TaxonSet] objects live in
    a store and are named by their addresses, so that the sharing of one
    [Taxon] between several sets, and the [clade_mask] attribute cached on
    it, are visible to the statements. *)

From Stdlib Require Import ZArith Lia.
From Stdlib Require Import Floats.PrimFloat Floats.FloatOps Floats.SpecFloat.
From Stdlib Require OrderedTypeEx.
From stdpp Require Import base list strings pretty.

(** ** Python values and exceptions *)

(** Addresses of [Taxon] and of [TaxonSet] objects: object identity ([is]). *)
Definition tref := nat.
Definition sref := nat.

(** Modelled from the spec: [base.IdTagged] is not part of the sources; the
    spec gives every object an "id (process-unique opaque token)" and a
    label.  An id that the caller did not supply is derived from the
    address of the object. *)
Inductive oid_t :=
| OidAuto (addr : nat)
| OidGiven (s : string).

#[global] Instance oid_t_eq_dec : EqDecision oid_t.
Proof. solve_decision. Defined.

(** The texts of the [KeyError]s and [ValueError]s of the module (the
    formatted ids and labels are left out). *)
Inductive key_error :=
| ImmutableTaxonSet      (* "Taxon %s:'%s' cannot be added to an immutable TaxonSet." *)
| LabelAlreadyDefined    (* "Taxon with label %s:'%s' already defined in the TaxonSet." *)
| NotInImmutableTaxonSet (* "Taxon not in TaxonSet, and cannot be created because TaxonSet is immutable." *).

Inductive value_error :=
| CannotConvert          (* "Cannot convert %s to Taxon" *)
| TaxonNotFound          (* "Taxon with ID '%s' and label '%s' not found" *)
| NotInList              (* list.index(x) / list.remove(x): x not in list *)
| MathDomainError        (* math.log of a non-positive number *).

Inductive exn :=
| KeyError (why : key_error)
| ValueError (why : value_error)
| AttributeError
| TypeError
| PlainException.

(** An element of the iterable given to [TaxonSet(...)]. *)
Inductive pyval :=
| VTaxon (t : tref)
| VStr (s : string)
| VOther.

(** ** Objects and the store *)

Record TaxonObj := mkTaxon {
  label : option string;       (* [None] is Python's [None] *)
  oid : oid_t;
  clade_mask : option Z        (* [None]: the attribute is not set *)
}.

Record TaxonSetObj := mkTaxonSet {
  members : list tref;         (* the items of the [OrderedSet], in order *)
  set_label : option string;
  set_oid : oid_t;
  _is_mutable : bool
}.

Record World := mkWorld {
  taxa : list TaxonObj;
  sets : list TaxonSetObj
}.

Definition empty_world : World := mkWorld [] [].

(** ** A state and exception monad over the store *)

(** [Stuck] is a failure of the model, not of the program: a read through an
    address that holds no object, or a loop that ran out of fuel. *)
Inductive outcome (A : Type) :=
| Ret (a : A)
| Raise (e : exn)
| Stuck.
Arguments Ret {A} a.
Arguments Raise {A} e.
Arguments Stuck {A}.

Definition M (A : Type) : Type := World -> outcome A * World.

Definition ret {A} (a : A) : M A := fun w => (Ret a, w).

Definition bind {A B} (m : M A) (k : A -> M B) : M B :=
  fun w =>
    match m w with
    | (Ret a, w') => k a w'
    | (Raise e, w') => (Raise e, w')
    | (Stuck, w') => (Stuck, w')
    end.

Definition raise {A} (e : exn) : M A := fun w => (Raise e, w).

(** [try: m except E: h], where [h e] is [None] when [e] is not caught. *)
Definition try_except {A} (m : M A) (h : exn -> option (M A)) : M A :=
  fun w =>
    match m w with
    | (Raise e, w') =>
        match h e with
        | Some k => k w'
        | None => (Raise e, w')
        end
    | r => r
    end.

Declare Scope py_scope.
Delimit Scope py_scope with py.
Notation "x <- m ;; k" := (bind m (fun x => k))
  (at level 100, m at next level, right associativity) : py_scope.
Notation "m ;;; k" := (bind m (fun _ => k))
  (at level 100, right associativity) : py_scope.
#[local] Open Scope py_scope.

Fixpoint mapM {A B} (f : A -> M B) (l : list A) : M (list B) :=
  match l with
  | [] => ret []
  | x :: l' => y <- f x ;; ys <- mapM f l' ;; ret (y :: ys)
  end.

Definition read_taxon (t : tref) : M TaxonObj :=
  fun w => match taxa w !! t with
           | Some o => (Ret o, w)
           | None => (Stuck, w)
           end.

Definition write_taxon (t : tref) (o : TaxonObj) : M unit :=
  fun w => (Ret tt, mkWorld (<[t := o]> (taxa w)) (sets w)).

Definition read_set (s : sref) : M TaxonSetObj :=
  fun w => match sets w !! s with
           | Some o => (Ret o, w)
           | None => (Stuck, w)
           end.

Definition write_set (s : sref) (o : TaxonSetObj) : M unit :=
  fun w => (Ret tt, mkWorld (taxa w) (<[s := o]> (sets w))).

Definition set_members (o : TaxonSetObj) (l : list tref) : TaxonSetObj :=
  mkTaxonSet l (set_label o) (set_oid o) (_is_mutable o).

Definition set_is_mutable (o : TaxonSetObj) (b : bool) : TaxonSetObj :=
  mkTaxonSet (members o) (set_label o) (set_oid o) b.

Definition set_clade_mask (o : TaxonObj) (m : Z) : TaxonObj :=
  mkTaxon (label o) (oid o) (Some m).

(** ** The [memo] dictionary of [copy.deepcopy] *)

(** [memo] maps [id(x)] to an object; the key [id(x)] is modelled by the
    object [x] itself.  [memo[k] = v] puts the entry in front, and a lookup
    takes the first entry for its key. *)
Inductive pyobj :=
| ObjTaxon (t : tref)
| ObjTaxonSet (s : sref)
| ObjOid (i : oid_t).

#[global] Instance pyobj_eq_dec : EqDecision pyobj.
Proof. solve_decision. Defined.

Definition memo_t : Type := list (pyobj * pyobj).

Definition memo_set (k v : pyobj) (memo : memo_t) : memo_t := (k, v) :: memo.

Fixpoint memo_get (k : pyobj) (memo : memo_t) : option pyobj :=
  match memo with
  | [] => None
  | (k', v) :: memo' => if decide (k = k') then Some v else memo_get k memo'
  end.

(** ** [Taxon] *)

Module Taxon.

(** [Taxon(label=None, oid=None)]: a new object, no [clade_mask]. *)
Definition __init__ (lbl : option string) (id : option oid_t) : M tref :=
  fun w =>
    let addr := length (taxa w) in
    let o := mkTaxon lbl (default (OidAuto addr) id) None in
    (Ret addr, mkWorld (taxa w ++ [o]) (sets w)).

(** [str(taxon.label)] *)
Definition str_label (o : TaxonObj) : string :=
  default "None"%string (label o).

(** [Taxon.__deepcopy__(self, memo)]: "Should not be copied". *)
Definition __deepcopy__ (self : tref) (memo : memo_t) : tref * memo_t :=
  (self, memo_set (ObjTaxon self) (ObjTaxon self) memo).

(** Python's [cmp] on two strings: the order of the first character that
    differs, a proper prefix being smaller. *)
Definition cmp_str (s1 s2 : string) : Z :=
  match String.compare s1 s2 with
  | Eq => 0
  | Lt => -1
  | Gt => 1
  end%Z.

(** [Taxon.cmp(taxon1, taxon2)] *)
Definition cmp (taxon1 taxon2 : tref) : M Z :=
  x1 <- read_taxon taxon1 ;;
  x2 <- read_taxon taxon2 ;;
  ret (cmp_str (str_label x1) (str_label x2)).

End Taxon.

(** ** [containers.OrderedSet] *)

(** Modelled from the spec: [containers.OrderedSet], the base class of
    [TaxonSet], is not part of the sources.  The spec describes an "ordered
    sequence of distinct TaxonIdentity references" with "set semantics over
    references"; [TaxonSet] uses it as a Python list ([index] and [remove]
    raising [ValueError], [len], iteration by position over the live
    sequence). *)
Module OrderedSet.

Fixpoint index_of (x : tref) (l : list tref) : option nat :=
  match l with
  | [] => None
  | y :: l' => if decide (x = y) then Some 0 else S <$> index_of x l'
  end.

Definition mem (x : tref) (l : list tref) : bool :=
  bool_decide (is_Some (index_of x l)).

Fixpoint remove_first (x : tref) (l : list tref) : list tref :=
  match l with
  | [] => []
  | y :: l' => if decide (x = y) then l' else y :: remove_first x l'
  end.

Definition add_item (l : list tref) (x : tref) : list tref :=
  if mem x l then l else l ++ [x].

(** [OrderedSet.__init__(self, items)] *)
Definition of_list (items : list tref) : list tref :=
  foldl add_item [] items.

(** [self.add(x)] *)
Definition add (self : sref) (x : tref) : M unit :=
  o <- read_set self ;;
  write_set self (set_members o (add_item (members o) x)).

(** [self.remove(x)] *)
Definition remove (self : sref) (x : tref) : M unit :=
  o <- read_set self ;;
  if mem x (members o)
  then write_set self (set_members o (remove_first x (members o)))
  else raise (ValueError NotInList).

(** [self.index(x)] *)
Definition index (self : sref) (x : tref) : M nat :=
  o <- read_set self ;;
  match index_of x (members o) with
  | Some i => ret i
  | None => raise (ValueError NotInList)
  end.

(** [len(self)] *)
Definition len (self : sref) : M nat :=
  o <- read_set self ;; ret (length (members o)).

End OrderedSet.

(** ** [TaxonSet] *)

Module TaxonSet.

(** [TaxonSet._to_taxon(s)] *)
Definition _to_taxon (s : pyval) : M tref :=
  match s with
  | VTaxon t => ret t
  | VStr l => Taxon.__init__ (Some l) None
  | VOther => raise (ValueError CannotConvert)
  end.

(** The keyword arguments of the constructor; [None]: not given. *)
Record init_kwargs := mkInitKw {
  kw_oid : option oid_t;
  kw_label : option string;
  kw_is_mutable : option bool
}.

Definition no_kwargs : init_kwargs := mkInitKw None None None.

Definition alloc (items : list tref) (kw : init_kwargs) : M sref :=
  fun w =>
    let addr := length (sets w) in
    let o := mkTaxonSet items (kw_label kw)
               (default (OidAuto addr) (kw_oid kw))
               (default true (kw_is_mutable kw)) in
    (Ret addr, mkWorld (taxa w) (sets w ++ [o])).

(** [TaxonSet(...)]: a new object set up by [__init__(self, *args, **kwargs)];
    [args] are the positional arguments, each an iterable. *)
Definition __init__ (args : list (list pyval)) (kw : init_kwargs) : M sref :=
  match args with
  | [] => alloc [] kw
  | [items] =>
      ts <- mapM _to_taxon items ;;
      alloc (OrderedSet.of_list ts) kw
  | _ => raise TypeError
  end.

Definition lock (self : sref) : M unit :=
  o <- read_set self ;; write_set self (set_is_mutable o false).

Definition unlock (self : sref) : M unit :=
  o <- read_set self ;; write_set self (set_is_mutable o true).

(** The getter and the setter of the property [is_locked]. *)
Definition get_is_locked (self : sref) : M bool :=
  o <- read_set self ;; ret (_is_mutable o).

Definition set_is_locked (self : sref) (v : bool) : M unit :=
  o <- read_set self ;; write_set self (set_is_mutable o v).

(** The keyword arguments of [get_taxon] and [require_taxon].  The outer
    [None] is a key that is absent, [Some None] is a key given as
    [None]. *)
Record lookup_kwargs := mkLookupKw {
  by_oid : option (option oid_t);
  by_label : option (option string)
}.

Definition by_label_only (l : string) : lookup_kwargs :=
  mkLookupKw None (Some (Some l)).

(** [(oid is not None and taxon.oid == oid)
     or (label is not None and taxon.label == label)] *)
Definition matches (id : option oid_t) (lbl : option string) (o : TaxonObj) : bool :=
  match id with Some i => bool_decide (oid o = i) | None => false end
  || match lbl with Some l => bool_decide (label o = Some l) | None => false end.

Fixpoint first_match (id : option oid_t) (lbl : option string) (l : list tref)
  : M (option tref) :=
  match l with
  | [] => ret None
  | t :: l' =>
      o <- read_taxon t ;;
      if matches id lbl o then ret (Some t) else first_match id lbl l'
  end.

Definition get_taxon (self : sref) (kw : lookup_kwargs) : M (option tref) :=
  match by_oid kw, by_label kw with
  | None, None => raise PlainException
  | _, _ =>
      o <- read_set self ;;
      first_match (mjoin (by_oid kw)) (mjoin (by_label kw)) (members o)
  end.

Definition require_taxon (self : sref) (kw : lookup_kwargs) : M tref :=
  r <- get_taxon self kw ;;
  match r with
  | Some t => ret t
  | None =>
      o <- read_set self ;;
      if _is_mutable o then
        t <- Taxon.__init__ (mjoin (by_label kw)) (mjoin (by_oid kw)) ;;
        OrderedSet.add self t ;;;
        ret t
      else raise (KeyError NotInImmutableTaxonSet)
  end.

Definition add_taxon (self : sref) (taxon : tref) : M unit :=
  o <- read_set self ;;
  if negb (_is_mutable o) then
    _ <- read_taxon taxon ;;       (* the message reads [taxon.oid], [taxon.label] *)
    raise (KeyError ImmutableTaxonSet)
  else OrderedSet.add self taxon.

Definition new_taxon (self : sref) (lbl : option string) (id : option oid_t)
    (error_if_label_exists : bool) : M tref :=
  o <- read_set self ;;
  if negb (_is_mutable o) then raise (KeyError ImmutableTaxonSet)
  else
    exists_ <- (if error_if_label_exists
                then r <- get_taxon self (mkLookupKw None (Some lbl)) ;;
                     ret (bool_decide (is_Some r))
                else ret false) ;;
    if (exists_ : bool) then raise (KeyError LabelAlreadyDefined)
    else
      t <- Taxon.__init__ lbl id ;;
      OrderedSet.add self t ;;;
      ret t.

(** [for t in self: self.remove(t)].  The iterator of a Python list keeps a
    position [i] and reads the live list: it stops when [i] has reached the
    current length, else it yields item [i] and moves to [i + 1]. *)
Fixpoint clear_loop (fuel : nat) (self : sref) (i : nat) : M unit :=
  match fuel with
  | O => fun w => (Stuck, w)
  | S fuel' =>
      o <- read_set self ;;
      match members o !! i with
      | None => ret tt
      | Some t => OrderedSet.remove self t ;;; clear_loop fuel' self (S i)
      end
  end.

Definition clear (self : sref) : M unit :=
  o <- read_set self ;;
  clear_loop (S (length (members o))) self 0.

(** [[str(taxon.label) for taxon in self]] *)
Definition labels (self : sref) : M (list string) :=
  o <- read_set self ;;
  mapM (fun t => x <- read_taxon t ;; ret (Taxon.str_label x)) (members o).

Definition all_taxa_bitmask (self : sref) : M Z :=
  n <- OrderedSet.len self ;;
  let b := Z.shiftl 1 (Z.of_nat n) in
  ret (b - 1)%Z.

Definition complement_split_bitmask (self : sref) (split : Z) : M Z :=
  a <- all_taxa_bitmask self ;;
  ret (Z.land (Z.lnot split) a).

(** [taxon.clade_mask]: [AttributeError] when the attribute is not set. *)
Definition get_clade_mask (taxon : tref) : M Z :=
  o <- read_taxon taxon ;;
  match clade_mask o with
  | Some m => ret m
  | None => raise AttributeError
  end.

Definition taxon_bitmask (self : sref) (taxon : tref) : M Z :=
  cached <- try_except (m <- get_clade_mask taxon ;; ret (Some m))
              (fun e => match e with
                        | AttributeError => Some (ret None)
                        | _ => None
                        end) ;;
  match cached with
  | Some m => ret m
  | None =>
      try_except
        (i <- OrderedSet.index self taxon ;;
         let m := Z.shiftl 1 (Z.of_nat i) in
         o <- read_taxon taxon ;;
         write_taxon taxon (set_clade_mask o m) ;;;
         ret m)
        (fun e => match e with
                  | ValueError _ => Some (raise (ValueError TaxonNotFound))
                  | _ => None
                  end)
  end.

(** The keyword arguments of [has_taxon]; as for [lookup_kwargs], the outer
    [None] is a key that is absent. *)
Record has_taxon_kwargs := mkHasTaxonKw {
  with_taxon : option (option tref);
  with_oid : option (option oid_t);
  with_label : option (option string)
}.

(** The condition of the loop of [has_taxon] for one member; the attributes
    of the member are read only when the [or] gets to them. *)
Definition taxon_matches (req : option tref) (id : option oid_t)
    (lbl : option string) (t : tref) : M bool :=
  if match req with Some r => bool_decide (r = t) | None => false end
  then ret true
  else match id, lbl with
       | None, None => ret false
       | _, _ => o <- read_taxon t ;; ret (matches id lbl o)
       end.

Fixpoint any_match (req : option tref) (id : option oid_t) (lbl : option string)
    (l : list tref) : M bool :=
  match l with
  | [] => ret false
  | t :: l' =>
      b <- taxon_matches req id lbl t ;;
      if (b : bool) then ret true else any_match req id lbl l'
  end.

Definition has_taxon (self : sref) (kw : has_taxon_kwargs) : M bool :=
  match with_taxon kw, with_oid kw, with_label kw with
  | None, None, None => raise PlainException
  | _, _, _ =>
      o <- read_set self ;;
      any_match (mjoin (with_taxon kw)) (mjoin (with_oid kw))
        (mjoin (with_label kw)) (members o)
  end.

(** The keyword arguments of [has_taxa]: lists of taxa, of ids and of labels
    (a label may be [None]). *)
Record has_taxa_kwargs := mkHasTaxaKw {
  with_taxa : option (list tref);
  with_oids : option (list oid_t);
  with_labels : option (list (option string))
}.

(** [a.issubset(b)] on sets given by their elements. *)
Definition issubset {A} `{EqDecision A} (a b : list A) : bool :=
  forallb (fun x => bool_decide (x ∈ b)) a.

Definition has_taxa (self : sref) (kw : has_taxa_kwargs) : M bool :=
  match with_taxa kw, with_oids kw, with_labels kw with
  | None, None, None => raise PlainException
  | _, _, _ =>
      let taxa := default [] (with_taxa kw) in
      let oids := default [] (with_oids kw) in
      let labels := default [] (with_labels kw) in
      o <- read_set self ;;
      taxon_oids <- mapM (fun t => x <- read_taxon t ;; ret (oid x)) (members o) ;;
      taxon_labels <- mapM (fun t => x <- read_taxon t ;; ret (label x)) (members o) ;;
      ret (issubset taxa (members o)
           && issubset oids taxon_oids
           && issubset labels taxon_labels)
  end.

(** [TaxonSet.__deepcopy__(self, memo)]: a new [TaxonSet] made from
    [list(self)], with the label and the mutability of [self]. *)
Definition __deepcopy__ (self : sref) (memo : memo_t) : M (sref * memo_t) :=
  s <- read_set self ;;
  o <- __init__ [VTaxon <$> members s]
         (mkInitKw None (set_label s) (Some (_is_mutable s))) ;;
  c <- read_set o ;;
  let memo := memo_set (ObjTaxonSet self) (ObjTaxonSet o) memo in
  let memo := memo_set (ObjOid (set_oid s)) (ObjOid (set_oid c)) memo in
  ret (o, memo).

End TaxonSet.

(** ** [TaxonSetLinked] *)

Module TaxonSetLinked.

(** A [TaxonSetLinked] object; only the attribute [taxon_set] matters here,
    and the object is passed and returned explicitly. *)
Record obj := mkLinked {
  linked_label : option string;
  linked_oid : option oid_t;     (* [None]: not given to the constructor *)
  taxon_set : sref
}.

(** [TaxonSetLinked.__init__(self, **kwargs)]; [taxon_set] is [None] when the
    key is absent or given as [None]. *)
Definition __init__ (lbl : option string) (id : option oid_t)
    (taxon_set : option sref) : M obj :=
  match taxon_set with
  | None => s <- TaxonSet.__init__ [] TaxonSet.no_kwargs ;; ret (mkLinked lbl id s)
  | Some s => ret (mkLinked lbl id s)
  end.

(** [reindex_subcomponent_taxa] as the class defines it: [def
    reindex_subcomponent_taxa():], with no [self], so that the call
    [self.reindex_subcomponent_taxa()] has one argument too many and raises
    [TypeError]. *)
Definition reindex_subcomponent_taxa (self : obj) : M obj :=
  raise TypeError.

(** [reindex_taxa(self, taxon_set=None, clear=True)].  [subcomponent] is the
    method [reindex_subcomponent_taxa] of the class of [self]: the one above,
    or what a derived class puts in its place; it returns [self] as it leaves
    it.  The result is [self] with its attribute [taxon_set] as the first
    statement leaves it, and the rest of the call. *)
Definition reindex_taxa (subcomponent : obj -> M obj) (self : obj)
    (taxon_set : option sref) (clear : bool) : obj * M (obj * sref) :=
  let self := match taxon_set with
              | Some s => mkLinked (linked_label self) (linked_oid self) s
              | None => self
              end in
  (self,
   (if clear then TaxonSet.clear (TaxonSetLinked.taxon_set self) else ret tt) ;;;
   self' <- subcomponent self ;;
   ret (self', TaxonSetLinked.taxon_set self')).

End TaxonSetLinked.

(** ** [new_taxon_set] *)

(** ["%0<width>d" % x] for [x >= 0]: the decimal digits of [x], with zeros
    on the left up to [width] characters. *)
Definition zero_pad (width : nat) (digits : string) : string :=
  String.concat EmptyString (replicate (width - String.length digits) "0"%string) +:+ digits.

(** [label_template % x] for [label_template = "T%%0%dd" % label_idx_length] *)
Definition label_template (label_idx_length : Z) (x : N) : string :=
  "T" +:+ zero_pad (Z.to_nat label_idx_length) (pretty x).

Fixpoint for_each {A} (l : list A) (body : A -> M unit) : M unit :=
  match l with
  | [] => ret tt
  | x :: l' => body x ;;; for_each l' body
  end.

Section Factory.

(** [int(math.log(ntax, 10))] for [ntax > 0]: the truncated quotient of two
    floating-point logarithms, a value of the C library that is taken as
    given. *)
Variable int_log10 : Z -> Z.

Definition new_taxon_set (ntax : Z) (label_func : option (N -> string)) : M sref :=
  taxon_set <- TaxonSet.__init__ [] TaxonSet.no_kwargs ;;
  label_func <- match label_func with
                | Some f => ret f
                | None =>
                    if (ntax <=? 0)%Z then raise (ValueError MathDomainError)
                    else
                      let label_idx_length := (int_log10 ntax + 1)%Z in
                      ret (label_template label_idx_length)
                end ;;
  for_each (seq 0 (Z.to_nat ntax))
    (fun i => _ <- TaxonSet.new_taxon taxon_set
                     (Some (label_func (N.of_nat (i + 1)))) None false ;;
              ret tt) ;;;
  ret taxon_set.

End Factory.

(** ** [math.log] in floating point *)

(** [math.log(x)] is the [log] of the C library on the double [x].  Its
    values on the arguments that the statements below use, as IEEE binary64
    numbers: the doubles nearest to the real logarithms. *)
Definition libm_log (x : Z) : option float :=
  match x with
  | 5%Z => Some 0x1.9c041f7ed8d33p+0%float
  | 10%Z => Some 0x1.26bb1bbb55516p+1%float
  | 100%Z => Some 0x1.26bb1bbb55516p+2%float
  | 1000%Z => Some 0x1.ba18a998fffa0p+2%float
  | _ => None
  end.

(** [math.log(x, base)]: the binary64 quotient of the two logarithms. *)
Definition math_log (x base : Z) : option float :=
  match libm_log x, libm_log base with
  | Some a, Some b => Some (a / b)%float
  | _, _ => None
  end.

(** [int(f)] for a float [f]: truncation toward zero; an error for an
    infinity or a NaN. *)
Definition int_of_float (f : float) : option Z :=
  match Prim2SF f with
  | S754_zero _ => Some 0%Z
  | S754_finite negative m e =>
      let a := Z.shiftl (Z.pos m) e in
      Some (if negative then (- a)%Z else a)
  | _ => None
  end.

(** [int(math.log(ntax, 10))] as the code computes it, for the counts that
    [libm_log] lists (and 0 for the others, which no statement uses). *)
Definition float_int_log10 (ntax : Z) : Z :=
  match math_log ntax 10 with
  | Some f => default 0%Z (int_of_float f)
  | None => 0%Z
  end.

(** The number of decimal digits of [n]. *)
Definition decimal_digits (n : Z) : nat := String.length (pretty (Z.to_N n)).

(** ** Running programs *)

Definition run {A} (m : M A) (w : World) : outcome A * World := m w.
Definition result {A} (m : M A) (w : World) : outcome A := (m w).1.
Definition after {A} (m : M A) (w : World) : World := (m w).2.

(** The member sequence of registry [self] in world [w]. *)
Definition members_of (w : World) (self : sref) : option (list tref) :=
  members <$> sets w !! self.

(** ** Definitions for the statements *)

(** What the loop of [clear] does to the member sequence. *)
Fixpoint clear_list (fuel : nat) (i : nat) (l : list tref) : list tref :=
  match fuel with
  | O => l
  | S fuel' =>
      match l !! i with
      | None => l
      | Some t => clear_list fuel' (S i) (OrderedSet.remove_first t l)
      end
  end.

(** The items at positions 1, 3, 5, ... *)
Fixpoint odd_positions (l : list tref) : list tref :=
  match l with
  | _ :: b :: l' => b :: odd_positions l'
  | _ => []
  end.

(** The objects made by successive [Taxon(label=l)], from address [addr] on. *)
Fixpoint fresh_taxa (addr : nat) (ls : list (option string)) : list TaxonObj :=
  match ls with
  | [] => []
  | l :: ls' => mkTaxon l (OidAuto addr) None :: fresh_taxa (S addr) ls'
  end.

(** A registry holding one taxon labelled "A", locked. *)
Definition locked_singleton : World :=
  after (s <- TaxonSet.__init__ [[VStr "A"]] TaxonSet.no_kwargs ;; TaxonSet.lock s)
    empty_world.

(** The registry built from the labels "A", "B" and "C". *)
Definition registry_abc : World :=
  after (TaxonSet.__init__ [[VStr "A"; VStr "B"; VStr "C"]] TaxonSet.no_kwargs) empty_world.

(** The labels "T001" to "T100", written out. *)
Definition labels_T001_T100 : list string :=
  [
   "T001"; "T002"; "T003"; "T004"; "T005"; "T006"; "T007"; "T008"; "T009"; "T010";
   "T011"; "T012"; "T013"; "T014"; "T015"; "T016"; "T017"; "T018"; "T019"; "T020";
   "T021"; "T022"; "T023"; "T024"; "T025"; "T026"; "T027"; "T028"; "T029"; "T030";
   "T031"; "T032"; "T033"; "T034"; "T035"; "T036"; "T037"; "T038"; "T039"; "T040";
   "T041"; "T042"; "T043"; "T044"; "T045"; "T046"; "T047"; "T048"; "T049"; "T050";
   "T051"; "T052"; "T053"; "T054"; "T055"; "T056"; "T057"; "T058"; "T059"; "T060";
   "T061"; "T062"; "T063"; "T064"; "T065"; "T066"; "T067"; "T068"; "T069"; "T070";
   "T071"; "T072"; "T073"; "T074"; "T075"; "T076"; "T077"; "T078"; "T079"; "T080";
   "T081"; "T082"; "T083"; "T084"; "T085"; "T086"; "T087"; "T088"; "T089"; "T090";
   "T091"; "T092"; "T093"; "T094"; "T095"; "T096"; "T097"; "T098"; "T099"; "T100"]%string.

(** Every member of the registry is an object of the store. *)
Definition allocated (w : World) (o : TaxonSetObj) : Prop :=
  Forall (fun t => t < length (taxa w)) (members o).

(** Taxon [t] carries the label [l]. *)
Definition labelled (w : World) (l : string) (t : tref) : Prop :=
  exists x, taxa w !! t = Some x /\ label x = Some l.

(** Taxon [t] has no [clade_mask] yet. *)
Definition uncached (w : World) (t : tref) : Prop :=
  exists x, taxa w !! t = Some x /\ clade_mask x = None.

(** The mask [1 << i]. *)
Definition bit (i : nat) : Z := Z.shiftl 1 (Z.of_nat i).

(** [s1] comes before [s2] in the order of Python's byte strings: at the
    first position where they differ [s1] has the smaller character, or [s1]
    ends there and [s2] goes on. *)
Inductive str_lt : string -> string -> Prop :=
| str_lt_prefix (a : Ascii.ascii) (s : string) : str_lt EmptyString (String a s)
| str_lt_tail (a : Ascii.ascii) (s1 s2 : string) :
    str_lt s1 s2 -> str_lt (String a s1) (String a s2)
| str_lt_head (a b : Ascii.ascii) (s1 s2 : string) :
    Ascii.nat_of_ascii a < Ascii.nat_of_ascii b -> str_lt (String a s1) (String b s2).

(** * Properties *)

(** ** The list operations of [OrderedSet] *)

Section OrderedSetLists.

Import OrderedSet.

Lemma index_of_Some x l i :
  index_of x l = Some i -> l !! i = Some x /\ x ∉ take i l.
Proof.
  revert i. induction l as [|y l IH]; intros i; simpl; [done|].
  case_decide as Hxy.
  - intros [= <-]. subst y. split; [done|]. simpl. apply not_elem_of_nil.
  - destruct (index_of x l) as [j|] eqn:Hj; simpl; [|done].
    intros [= <-]. destruct (IH j eq_refl) as [Hl Hn]. split; [done|].
    simpl. rewrite not_elem_of_cons. done.
Qed.

Lemma index_of_None x l : index_of x l = None <-> x ∉ l.
Proof.
  induction l as [|y l IH]; simpl.
  - split; [intros _; apply not_elem_of_nil | done].
  - case_decide as Hxy.
    + subst y. split; [done|]. intros Hn. exfalso. apply Hn. left.
    + rewrite not_elem_of_cons. destruct (index_of x l); simpl.
      * split; [done|]. intros [_ Hn]. apply IH in Hn. done.
      * split; [|done]. intros _. split; [done|]. by apply IH.
Qed.

Lemma mem_true x l : mem x l = true <-> x ∈ l.
Proof.
  unfold mem. rewrite bool_decide_eq_true.
  destruct (index_of x l) as [i|] eqn:Hi.
  - split; [|by eauto]. intros _. apply index_of_Some in Hi as [Hi _].
    by eapply list_elem_of_lookup_2.
  - apply index_of_None in Hi. split; [|done]. by intros [? [=]].
Qed.

Lemma mem_false x l : mem x l = false <-> x ∉ l.
Proof.
  rewrite <- mem_true. destruct (mem x l); split; congruence.
Qed.

(** In a sequence without duplicates, [index] finds the position. *)
Lemma index_of_lookup x l i :
  NoDup l -> l !! i = Some x -> index_of x l = Some i.
Proof.
  intros Hnd. revert i. induction Hnd as [|y l Hy Hnd IH]; intros i; [done|].
  simpl. destruct i as [|i]; simpl.
  - intros [= ->]. by rewrite decide_True.
  - intros Hi. rewrite decide_False.
    + by rewrite (IH i Hi).
    + intros ->. apply Hy. by eapply list_elem_of_lookup_2.
Qed.

Lemma length_remove_first x l :
  x ∈ l -> S (length (remove_first x l)) = length l.
Proof.
  induction l as [|y l IH]; simpl.
  - intros H. by apply not_elem_of_nil in H.
  - case_decide as Hxy; [done|]. rewrite elem_of_cons. intros [->|H]; [done|].
    simpl. by rewrite IH.
Qed.

End OrderedSetLists.

(** ** Stepping through the monad *)

Lemma world_eta w : mkWorld (taxa w) (sets w) = w.
Proof. by destruct w. Qed.

Lemma set_members_id o : set_members o (members o) = o.
Proof. by destruct o. Qed.

Lemma bind_ret_step {A B} (m : M A) (k : A -> M B) w a w' :
  m w = (Ret a, w') -> bind m k w = k a w'.
Proof. unfold bind. by intros ->. Qed.

Lemma bind_raise_step {A B} (m : M A) (k : A -> M B) w e w' :
  m w = (Raise e, w') -> bind m k w = (Raise e, w').
Proof. unfold bind. by intros ->. Qed.

Lemma read_set_step w self o :
  sets w !! self = Some o -> read_set self w = (Ret o, w).
Proof. unfold read_set. by intros ->. Qed.

Lemma read_taxon_step w t x :
  taxa w !! t = Some x -> read_taxon t w = (Ret x, w).
Proof. unfold read_taxon. by intros ->. Qed.

(** The address handed out by an allocation holds the new object. *)
Lemma lookup_fresh {A} (l : list A) (x : A) : (l ++ [x]) !! length l = Some x.
Proof. by rewrite list_lookup_middle. Qed.

(** ** The loop of [clear] *)

(** With fuel for every item, the loop returns: it never runs out of fuel
    and [remove] never fails, since the item removed was just read from the
    sequence. *)
Lemma clear_loop_run self fuel : forall i w o,
  sets w !! self = Some o ->
  length (members o) < i + fuel -> 0 < fuel ->
  TaxonSet.clear_loop fuel self i w =
    (Ret tt, mkWorld (taxa w)
               (<[self := set_members o (clear_list fuel i (members o))]> (sets w))).
Proof.
  induction fuel as [|fuel IH]; intros i w o Ho Hlen Hfuel; [lia|].
  simpl. rewrite (bind_ret_step _ _ _ _ _ (read_set_step _ _ _ Ho)).
  destruct (members o !! i) as [t|] eqn:Hi.
  - assert (Ht : t ∈ members o) by (by eapply list_elem_of_lookup_2).
    apply lookup_lt_Some in Hi as Hlt.
    set (o1 := set_members o (OrderedSet.remove_first t (members o))).
    set (w1 := mkWorld (taxa w) (<[self := o1]> (sets w))).
    assert (Hrm : OrderedSet.remove self t w = (Ret tt, w1)).
    { unfold OrderedSet.remove.
      rewrite (bind_ret_step _ _ _ _ _ (read_set_step _ _ _ Ho)).
      apply mem_true in Ht. by rewrite Ht. }
    rewrite (bind_ret_step _ _ _ _ _ Hrm).
    assert (Ho1 : sets w1 !! self = Some o1).
    { simpl. apply list_lookup_insert_eq. by eapply lookup_lt_Some. }
    pose proof (length_remove_first t (members o) Ht) as Hl.
    rewrite (IH (S i) w1 o1 Ho1); [| simpl; lia | lia].
    simpl. by rewrite list_insert_insert_eq.
  - unfold ret. rewrite set_members_id, list_insert_id by done.
    by rewrite world_eta.
Qed.

Lemma clear_run self w o :
  sets w !! self = Some o ->
  TaxonSet.clear self w =
    (Ret tt, mkWorld (taxa w)
               (<[self := set_members o
                            (clear_list (S (length (members o))) 0 (members o))]>
                  (sets w))).
Proof.
  intros Ho. unfold TaxonSet.clear.
  rewrite (bind_ret_step _ _ _ _ _ (read_set_step _ _ _ Ho)).
  apply clear_loop_run; [done | lia | lia].
Qed.

Lemma remove_first_middle (p l : list tref) a :
  a ∉ p -> OrderedSet.remove_first a (p ++ a :: l) = p ++ l.
Proof.
  induction p as [|y p IH]; simpl; intros Hn.
  - by rewrite decide_True.
  - apply not_elem_of_cons in Hn as [Hay Hn]. rewrite decide_False by done.
    by rewrite IH.
Qed.

(** On a sequence without duplicates the loop removes the items at the even
    positions and skips those at the odd ones. *)
Lemma clear_list_odd fuel : forall p l,
  NoDup (p ++ l) -> length l < fuel ->
  clear_list fuel (length p) (p ++ l) = p ++ odd_positions l.
Proof.
  induction fuel as [|fuel IH]; intros p l Hnd Hlen; [lia|].
  simpl. destruct l as [|a l].
  - rewrite app_nil_r, lookup_ge_None_2 by lia. simpl. by rewrite app_nil_r.
  - rewrite list_lookup_middle by done.
    apply NoDup_app in Hnd as Hnd'. destruct Hnd' as (_ & Hdisj & _).
    rewrite remove_first_middle
      by (intros Hin; apply (Hdisj a Hin); left).
    destruct l as [|b l].
    + simpl. rewrite !app_nil_r. destruct fuel as [|fuel]; [done|].
      simpl. by rewrite lookup_ge_None_2 by lia.
    + replace (S (length p)) with (length (p ++ [b]))
        by (rewrite length_app; simpl; lia).
      replace (p ++ b :: l) with ((p ++ [b]) ++ l) by (by rewrite <- app_assoc).
      rewrite IH.
      * simpl. by rewrite <- app_assoc.
      * rewrite <- app_assoc. simpl.
        apply NoDup_app in Hnd as (Hp & Hd & Hl).
        apply NoDup_app. split; [done|]. split.
        -- intros x Hx Hin. apply (Hd x Hx). by right.
        -- by apply NoDup_cons in Hl as [_ Hl].
      * simpl in Hlen. lia.
Qed.

Lemma length_odd_positions_aux l :
  length (odd_positions l) = length l / 2
  /\ forall a, length (odd_positions (a :: l)) = S (length l) / 2.
Proof.
  induction l as [|b l [IH1 IH2]]; [done|].
  split; [apply IH2|]. intros a. simpl odd_positions. simpl length.
  rewrite IH1. replace (S (S (length l))) with (length l + 1 * 2) by lia.
  rewrite Nat.div_add by lia. lia.
Qed.

Lemma length_odd_positions l : length (odd_positions l) = length l / 2.
Proof. apply length_odd_positions_aux. Qed.

(** On a registry without duplicates, [clear] returns and leaves the members
    that stood at the odd positions: half of them, rounded down. *)
Lemma clear_leaves_odd_positions self w o :
  sets w !! self = Some o -> NoDup (members o) ->
  result (TaxonSet.clear self) w = Ret tt
  /\ members_of (after (TaxonSet.clear self) w) self = Some (odd_positions (members o))
  /\ taxa (after (TaxonSet.clear self) w) = taxa w.
Proof.
  intros Ho Hnd. unfold result, after, members_of.
  pose proof (clear_list_odd (S (length (members o))) [] (members o)) as H.
  change ([] ++ members o) with (members o) in H. change (length []) with 0 in H.
  rewrite (clear_run _ _ _ Ho), H by (done || lia). cbn -[lookup insert].
  by rewrite list_lookup_insert_eq by (by eapply lookup_lt_Some).
Qed.

(** ** The mutability gate *)

Lemma first_match_none (l : string) (w : World) (ms : list tref) :
  Forall (fun t => exists x, taxa w !! t = Some x /\ label x <> Some l) ms ->
  TaxonSet.first_match None (Some l) ms w = (Ret None, w).
Proof.
  induction 1 as [|t ms (x & Hx & Hl) _ IH]; [done|].
  simpl. rewrite (bind_ret_step _ _ _ _ _ (read_taxon_step _ _ _ Hx)).
  unfold TaxonSet.matches. simpl. by rewrite bool_decide_eq_false_2.
Qed.

Lemma lock_run w self o :
  sets w !! self = Some o ->
  TaxonSet.lock self w =
    (Ret tt, mkWorld (taxa w) (<[self := set_is_mutable o false]> (sets w))).
Proof.
  intros Ho. unfold TaxonSet.lock.
  by rewrite (bind_ret_step _ _ _ _ _ (read_set_step _ _ _ Ho)).
Qed.

Lemma unlock_run w self o :
  sets w !! self = Some o ->
  TaxonSet.unlock self w =
    (Ret tt, mkWorld (taxa w) (<[self := set_is_mutable o true]> (sets w))).
Proof.
  intros Ho. unfold TaxonSet.unlock.
  by rewrite (bind_ret_step _ _ _ _ _ (read_set_step _ _ _ Ho)).
Qed.

Lemma get_is_locked_run w self o :
  sets w !! self = Some o ->
  TaxonSet.get_is_locked self w = (Ret (_is_mutable o), w).
Proof.
  intros Ho. unfold TaxonSet.get_is_locked.
  by rewrite (bind_ret_step _ _ _ _ _ (read_set_step _ _ _ Ho)).
Qed.

Lemma new_empty_run w kw :
  TaxonSet.__init__ [] kw w =
    (Ret (length (sets w)),
     mkWorld (taxa w)
       (sets w ++ [mkTaxonSet [] (TaxonSet.kw_label kw)
                     (default (OidAuto (length (sets w))) (TaxonSet.kw_oid kw))
                     (default true (TaxonSet.kw_is_mutable kw))])).
Proof. done. Qed.

(** Rewriting with the run of the first command of a sequence. *)
Ltac step H := rewrite !(bind_ret_step _ _ _ _ _ H).

(** C3, as the code has it: the getter of [is_locked] returns [_is_mutable]
    itself.  A registry that was just constructed reports [True], it reports
    [False] after [lock()] and [True] again after [unlock()]. *)
Theorem is_locked_returns_is_mutable (w : World) :
  result (s <- TaxonSet.__init__ [] TaxonSet.no_kwargs ;;
          TaxonSet.get_is_locked s) w = Ret true
  /\ result (s <- TaxonSet.__init__ [] TaxonSet.no_kwargs ;;
             TaxonSet.lock s ;;;
             TaxonSet.get_is_locked s) w = Ret false
  /\ result (s <- TaxonSet.__init__ [] TaxonSet.no_kwargs ;;
             TaxonSet.lock s ;;;
             TaxonSet.unlock s ;;;
             TaxonSet.get_is_locked s) w = Ret true.
Proof.
  unfold result. step (new_empty_run w TaxonSet.no_kwargs).
  set (o := mkTaxonSet _ _ _ _). set (w1 := mkWorld _ _).
  assert (Ho : sets w1 !! length (sets w) = Some o) by apply lookup_fresh.
  pose proof (lookup_lt_Some _ _ _ Ho) as Hlt.
  split; [|split].
  - by rewrite (get_is_locked_run _ _ _ Ho).
  - step (lock_run _ _ _ Ho). set (w2 := mkWorld _ _).
    assert (Ho2 : sets w2 !! length (sets w) = Some (set_is_mutable o false))
      by (by apply list_lookup_insert_eq).
    by rewrite (get_is_locked_run _ _ _ Ho2).
  - step (lock_run _ _ _ Ho). set (w2 := mkWorld _ _).
    assert (Ho2 : sets w2 !! length (sets w) = Some (set_is_mutable o false))
      by (by apply list_lookup_insert_eq).
    step (unlock_run _ _ _ Ho2). set (w3 := mkWorld _ _).
    assert (Ho3 : sets w3 !! length (sets w)
                  = Some (set_is_mutable (set_is_mutable o false) true)).
    { apply list_lookup_insert_eq. by eapply lookup_lt_Some. }
    by rewrite (get_is_locked_run _ _ _ Ho3).
Qed.

(** C4, as the code has it: [_to_taxon] returns a [Taxon] it is given.  The
    registry constructed from [Taxon] objects holds those very objects, and
    no new [Taxon] is created. *)
Theorem constructor_keeps_given_taxa (w : World) (ts : list tref) (t : tref)
    (kw : TaxonSet.init_kwargs) :
  run (mapM TaxonSet._to_taxon (VTaxon <$> ts)) w = (Ret ts, w)
  /\ members_of (after (TaxonSet.__init__ [[VTaxon t]] kw) w) (length (sets w)) = Some [t]
  /\ taxa (after (TaxonSet.__init__ [[VTaxon t]] kw) w) = taxa w.
Proof.
  split; [|split].
  - unfold run. induction ts as [|a ts IH]; [done|].
    cbn [fmap list_fmap mapM]. rewrite (bind_ret_step _ _ w a w) by done.
    by rewrite (bind_ret_step _ _ _ _ _ IH).
  - unfold members_of, after. simpl. by rewrite lookup_fresh.
  - done.
Qed.

(** C2 fails for [clear], which does not consult [_is_mutable]: on a locked
    registry with one member it returns without an error and the member is
    gone. *)
Lemma clear_on_locked_registry_removes :
  _is_mutable <$> sets locked_singleton !! 0 = Some false
  /\ members_of locked_singleton 0 = Some [0]
  /\ result (TaxonSet.clear 0) locked_singleton = Ret tt
  /\ members_of (after (TaxonSet.clear 0) locked_singleton) 0 = Some [].
Proof. by vm_compute. Qed.

(** C2, amended: on a locked registry [add_taxon] and [new_taxon] raise the
    [KeyError] of an immutable [TaxonSet] and leave the whole store as it
    was; [clear] is outside the gate and returns without an error. *)
Theorem locked_registry_rejects_add_and_new
    (w : World) (self : sref) (o : TaxonSetObj) (t : tref)
    (lbl : option string) (id : option oid_t) (error_if_label_exists : bool) :
  sets w !! self = Some o ->
  _is_mutable o = false ->
  is_Some (taxa w !! t) ->
  run (TaxonSet.add_taxon self t) w = (Raise (KeyError ImmutableTaxonSet), w)
  /\ run (TaxonSet.new_taxon self lbl id error_if_label_exists) w
     = (Raise (KeyError ImmutableTaxonSet), w)
  /\ result (TaxonSet.clear self) w = Ret tt.
Proof.
  intros Ho Hm [x Hx]. unfold run, result. split; [|split].
  - unfold TaxonSet.add_taxon. step (read_set_step _ _ _ Ho). rewrite Hm. simpl.
    by step (read_taxon_step _ _ _ Hx).
  - unfold TaxonSet.new_taxon. step (read_set_step _ _ _ Ho). by rewrite Hm.
  - by rewrite (clear_run _ _ _ Ho).
Qed.

Lemma locked_registry_rejects_add_and_new_witness :
  run (TaxonSet.add_taxon 0 0) locked_singleton
    = (Raise (KeyError ImmutableTaxonSet), locked_singleton)
  /\ run (TaxonSet.new_taxon 0 (Some "B"%string) None true) locked_singleton
     = (Raise (KeyError ImmutableTaxonSet), locked_singleton)
  /\ result (TaxonSet.clear 0) locked_singleton = Ret tt.
Proof.
  apply (locked_registry_rejects_add_and_new locked_singleton 0
           (mkTaxonSet [0] None (OidAuto 0) false) 0).
  - reflexivity.
  - reflexivity.
  - exists (mkTaxon (Some "A"%string) (OidAuto 0) None). reflexivity.
Defined.

(** C7, as the code has it: [clear] removes while it iterates, so every
    second member is skipped.  On a registry built from the labels "A" and
    "B" it returns and the taxon labelled "B" is still a member. *)
Theorem clear_leaves_second_member :
  let prog := (s <- TaxonSet.__init__ [[VStr "A"; VStr "B"]] TaxonSet.no_kwargs ;;
               TaxonSet.clear s ;;;
               n <- OrderedSet.len s ;;
               a <- TaxonSet.all_taxa_bitmask s ;;
               l <- TaxonSet.labels s ;;
               ret (n, a, l)) in
  result prog empty_world = Ret (1, 1%Z, ["B"%string])
  /\ members_of (after prog empty_world) 0 = Some [1].
Proof. by vm_compute. Qed.

(** C8: on a locked registry in which no member carries the label,
    [require_taxon(label=l)] raises the [KeyError] of an immutable
    [TaxonSet], and the store, so the member sequence too, is as before. *)
Theorem require_taxon_locked_raises
    (w : World) (self : sref) (o : TaxonSetObj) (l : string) :
  sets w !! self = Some o ->
  _is_mutable o = false ->
  Forall (fun t => exists x, taxa w !! t = Some x /\ label x <> Some l) (members o) ->
  run (TaxonSet.require_taxon self (TaxonSet.by_label_only l)) w
    = (Raise (KeyError NotInImmutableTaxonSet), w)
  /\ members_of (after (TaxonSet.require_taxon self (TaxonSet.by_label_only l)) w) self
     = Some (members o).
Proof.
  intros Ho Hm Hno.
  assert (Hrun : run (TaxonSet.require_taxon self (TaxonSet.by_label_only l)) w
                 = (Raise (KeyError NotInImmutableTaxonSet), w)).
  { unfold run, TaxonSet.require_taxon.
    assert (Hget : TaxonSet.get_taxon self (TaxonSet.by_label_only l) w = (Ret None, w)).
    { unfold TaxonSet.get_taxon. simpl. step (read_set_step _ _ _ Ho).
      by apply first_match_none. }
    step Hget. step (read_set_step _ _ _ Ho). by rewrite Hm. }
  split; [done|]. unfold after. unfold run in Hrun. rewrite Hrun.
  unfold members_of. simpl. by rewrite Ho.
Qed.

Lemma require_taxon_locked_raises_witness :
  run (TaxonSet.require_taxon 0 (TaxonSet.by_label_only "X")) locked_singleton
    = (Raise (KeyError NotInImmutableTaxonSet), locked_singleton)
  /\ members_of
       (after (TaxonSet.require_taxon 0 (TaxonSet.by_label_only "X")) locked_singleton) 0
     = Some [0].
Proof.
  apply (require_taxon_locked_raises locked_singleton 0
           (mkTaxonSet [0] None (OidAuto 0) false) "X").
  - reflexivity.
  - reflexivity.
  - constructor; [|constructor].
    exists (mkTaxon (Some "A"%string) (OidAuto 0) None). split; [reflexivity|discriminate].
Defined.

(** ** Bitmasks *)

Lemma all_taxa_bitmask_run w self o :
  sets w !! self = Some o ->
  TaxonSet.all_taxa_bitmask self w = (Ret (Z.ones (Z.of_nat (length (members o)))), w).
Proof.
  intros Ho. unfold TaxonSet.all_taxa_bitmask, OrderedSet.len.
  assert (Hlen : (o' <- read_set self ;; ret (length (members o'))) w
                 = (Ret (length (members o)), w))
    by (by step (read_set_step _ _ _ Ho)).
  step Hlen. unfold ret. by rewrite Z.sub_1_r.
Qed.

Lemma all_taxa_bitmask_inv w self a :
  result (TaxonSet.all_taxa_bitmask self) w = Ret a ->
  exists o, sets w !! self = Some o /\ a = Z.ones (Z.of_nat (length (members o))).
Proof.
  destruct (sets w !! self) as [o|] eqn:Ho.
  - unfold result. rewrite (all_taxa_bitmask_run _ _ _ Ho). intros [= <-]. eauto.
  - unfold result, TaxonSet.all_taxa_bitmask, OrderedSet.len, bind, read_set.
    by rewrite Ho.
Qed.

Lemma complement_split_bitmask_run w self o split :
  sets w !! self = Some o ->
  TaxonSet.complement_split_bitmask self split w
  = (Ret (Z.land (Z.lnot split) (Z.ones (Z.of_nat (length (members o))))), w).
Proof.
  intros Ho. unfold TaxonSet.complement_split_bitmask.
  by step (all_taxa_bitmask_run _ _ _ Ho).
Qed.

(** A mask within [0, 2^n - 1] has no bit at position [n] or above. *)
Lemma bits_above_ones (n m i : Z) :
  (0 <= m <= Z.ones n)%Z -> (0 <= n <= i)%Z -> Z.testbit m i = false.
Proof.
  intros Hm Hi. rewrite Z.ones_equiv in Hm.
  rewrite <- (Z.mod_small m (2 ^ n)) by lia.
  by apply Z.mod_pow2_bits_high.
Qed.

Lemma testbit_ones_cases (n i : Z) :
  (0 <= n)%Z -> (0 <= i)%Z ->
  (i < n /\ Z.testbit (Z.ones n) i = true)%Z \/ (n <= i /\ Z.testbit (Z.ones n) i = false)%Z.
Proof.
  intros Hn Hi. destruct (Z.lt_ge_cases i n).
  - left. split; [done|]. by apply Z.ones_spec_low.
  - right. split; [done|]. by apply Z.ones_spec_high.
Qed.

Lemma complement_in_range (n m : Z) :
  (0 <= n)%Z ->
  (0 <= m <= Z.ones n)%Z ->
  let c := Z.land (Z.lnot m) (Z.ones n) in
  Z.lor c m = Z.ones n /\ Z.land c m = 0%Z /\ c = Z.lxor m (Z.ones n).
Proof.
  intros Hn Hm c. subst c.
  split; [|split]; apply Z.bits_inj'; intros i Hi;
    rewrite ?Z.lor_spec, ?Z.land_spec, ?Z.lxor_spec, ?Z.lnot_spec, ?Z.bits_0 by done;
    destruct (testbit_ones_cases n i Hn Hi) as [[Hlt ->]|[Hge ->]];
    try rewrite (bits_above_ones n m i Hm) by lia;
    by destruct (Z.testbit m i).
Qed.

Lemma complement_any (n m : Z) :
  (0 <= n)%Z ->
  let c := Z.land (Z.lnot m) (Z.ones n) in
  (0 <= c <= Z.ones n)%Z
  /\ forall i, (n <= i)%Z -> Z.testbit m i = true -> c <> Z.lxor m (Z.ones n).
Proof.
  intros Hn c. subst c. split.
  - rewrite Z.land_ones, Z.ones_equiv by done.
    pose proof (Z.mod_pos_bound (Z.lnot m) (2 ^ n)) as H.
    assert (0 < 2 ^ n)%Z by (by apply Z.pow_pos_nonneg). lia.
  - intros i Hi Hbit Heq.
    apply (f_equal (fun z => Z.testbit z i)) in Heq.
    rewrite Z.land_spec, Z.lxor_spec, Hbit, Z.ones_spec_high in Heq by lia.
    by rewrite andb_false_r in Heq.
Qed.

(** C6: for a mask [m] with [0 <= m <= all_taxa_bitmask()], the complement
    [c] and [m] split the mask of all taxa: [c | m] is that mask, [c & m] is
    [0], and [c] is [m ^ all_taxa_bitmask()]. *)
Theorem complement_partitions_all_taxa (w : World) (self : sref) (a m : Z) :
  result (TaxonSet.all_taxa_bitmask self) w = Ret a ->
  (0 <= m <= a)%Z ->
  exists c, run (TaxonSet.complement_split_bitmask self m) w = (Ret c, w)
            /\ Z.lor c m = a /\ Z.land c m = 0%Z /\ c = Z.lxor m a.
Proof.
  intros (o & Ho & ->)%all_taxa_bitmask_inv Hm.
  eexists. split; [by apply complement_split_bitmask_run|].
  apply complement_in_range; [lia|done].
Qed.

Lemma complement_partitions_all_taxa_witness :
  exists c, run (TaxonSet.complement_split_bitmask 0 5) registry_abc = (Ret c, registry_abc)
            /\ Z.lor c 5 = 7%Z /\ Z.land c 5 = 0%Z /\ c = Z.lxor 5 7.
Proof.
  apply (complement_partitions_all_taxa registry_abc 0 7 5).
  - reflexivity.
  - lia.
Defined.

(** C10: for every mask [m >= 0] the complement is [(~m) & all_taxa_bitmask()],
    which lies between [0] and [all_taxa_bitmask()]; when [m] has a bit at a
    position from the member count on, the complement is not
    [m ^ all_taxa_bitmask()], whose bit at that position is set. *)
Theorem complement_clears_out_of_range_bits
    (w : World) (self : sref) (o : TaxonSetObj) (a m : Z) :
  sets w !! self = Some o ->
  result (TaxonSet.all_taxa_bitmask self) w = Ret a ->
  (0 <= m)%Z ->
  exists c, run (TaxonSet.complement_split_bitmask self m) w = (Ret c, w)
            /\ c = Z.land (Z.lnot m) a
            /\ (0 <= c <= a)%Z
            /\ forall i, (Z.of_nat (length (members o)) <= i)%Z ->
                         Z.testbit m i = true ->
                         c <> Z.lxor m a /\ Z.testbit c i = false
                         /\ Z.testbit (Z.lxor m a) i = true.
Proof.
  intros Ho Ha Hm. unfold result in Ha.
  rewrite (all_taxa_bitmask_run _ _ _ Ho) in Ha. injection Ha as <-.
  eexists. split; [by apply complement_split_bitmask_run|].
  split; [done|].
  pose proof (complement_any (Z.of_nat (length (members o))) m ltac:(lia)) as [Hr Hd].
  split; [done|]. intros i Hi Hbit. split; [by eapply Hd|].
  rewrite Z.land_spec, Z.lxor_spec, Hbit, Z.ones_spec_high by lia.
  by rewrite andb_false_r.
Qed.

Lemma complement_clears_out_of_range_bits_witness :
  exists c, run (TaxonSet.complement_split_bitmask 0 9) registry_abc = (Ret c, registry_abc)
            /\ c = Z.land (Z.lnot 9) 7
            /\ (0 <= c <= 7)%Z
            /\ forall i, (3 <= i)%Z -> Z.testbit 9 i = true ->
                         c <> Z.lxor 9 7 /\ Z.testbit c i = false
                         /\ Z.testbit (Z.lxor 9 7) i = true.
Proof.
  apply (complement_clears_out_of_range_bits registry_abc 0
           (mkTaxonSet [0; 1; 2] None (OidAuto 0) true) 7 9).
  - reflexivity.
  - reflexivity.
  - lia.
Defined.

(** ** Allocation of new taxa *)

Lemma length_fresh_taxa addr ls : length (fresh_taxa addr ls) = length ls.
Proof. revert addr. induction ls as [|l ls IH]; intros addr; simpl; by rewrite ?IH. Qed.

Lemma str_label_fresh_taxa addr ls :
  Taxon.str_label <$> fresh_taxa addr ls = default "None"%string <$> ls.
Proof.
  revert addr. induction ls as [|l ls IH]; intros addr; [done|].
  simpl. by rewrite IH.
Qed.

Lemma mem_fresh_address (ms : list tref) (n : nat) :
  Forall (fun t => t < n) ms -> OrderedSet.mem n ms = false.
Proof.
  intros Hall. apply mem_false. intros Hin.
  rewrite Forall_forall in Hall. apply Hall in Hin. lia.
Qed.

(** [new_taxon] on an unlocked registry, all of whose members are allocated:
    the new taxon takes the next address and the last position. *)
Lemma new_taxon_run w self o lbl :
  sets w !! self = Some o ->
  _is_mutable o = true ->
  Forall (fun t => t < length (taxa w)) (members o) ->
  TaxonSet.new_taxon self lbl None false w =
    (Ret (length (taxa w)),
     mkWorld (taxa w ++ fresh_taxa (length (taxa w)) [lbl])
       (<[self := set_members o (members o ++ [length (taxa w)])]> (sets w))).
Proof.
  intros Ho Hm Hall. unfold TaxonSet.new_taxon.
  step (read_set_step _ _ _ Ho). rewrite Hm. cbn [negb].
  rewrite (bind_ret_step _ _ w false w) by done. cbv iota.
  set (w1 := mkWorld (taxa w ++ fresh_taxa (length (taxa w)) [lbl]) (sets w)).
  rewrite (bind_ret_step _ _ w (length (taxa w)) w1) by done.
  unfold OrderedSet.add.
  assert (Hadd : (o' <- read_set self ;;
                  write_set self (set_members o'
                     (OrderedSet.add_item (members o') (length (taxa w))))) w1
                 = (Ret tt, mkWorld (taxa w1)
                      (<[self := set_members o (members o ++ [length (taxa w)])]> (sets w)))).
  { rewrite (bind_ret_step _ _ w1 o w1) by (by apply read_set_step).
    unfold OrderedSet.add_item. by rewrite mem_fresh_address. }
  by step Hadd.
Qed.

Lemma for_each_new_taxon self (ls : list (option string)) : forall w o,
  sets w !! self = Some o ->
  _is_mutable o = true ->
  Forall (fun t => t < length (taxa w)) (members o) ->
  for_each ls (fun l => _ <- TaxonSet.new_taxon self l None false ;; ret tt) w =
    (Ret tt,
     mkWorld (taxa w ++ fresh_taxa (length (taxa w)) ls)
       (<[self := set_members o (members o ++ seq (length (taxa w)) (length ls))]>
          (sets w))).
Proof.
  induction ls as [|l ls IH]; intros w o Ho Hm Hall.
  - simpl. unfold ret. rewrite !app_nil_r, set_members_id, list_insert_id by done.
    by rewrite world_eta.
  - cbn [for_each].
    erewrite (bind_ret_step (_ <- TaxonSet.new_taxon self l None false ;; ret tt)).
    2:{ by step (new_taxon_run _ _ _ l Ho Hm Hall). }
    set (o1 := set_members o (members o ++ [length (taxa w)])).
    assert (Hlt : self < length (sets w)) by (by eapply lookup_lt_Some).
    rewrite (IH _ o1).
    + cbn [taxa sets]. rewrite list_insert_insert_eq, length_app. cbn [length fresh_taxa].
      rewrite Nat.add_1_r. subst o1. unfold set_members. cbn [members set_label set_oid _is_mutable].
      by rewrite <- !app_assoc.
    + cbn [sets]. by apply list_lookup_insert_eq.
    + done.
    + cbn [taxa o1 set_members members]. rewrite length_app. cbn [length fresh_taxa].
      apply Forall_app. split.
      * eapply Forall_impl; [exact Hall|]. intros t Ht. simpl in Ht. lia.
      * apply Forall_singleton. lia.
Qed.

Lemma for_each_map {A B} (g : A -> B) (body : B -> M unit) (l : list A) :
  for_each l (fun i => body (g i)) = for_each (g <$> l) body.
Proof. induction l as [|x l IH]; [done|]. simpl. by rewrite IH. Qed.

(** Reading the labels of the taxa at consecutive addresses. *)
Lemma mapM_str_label (objs : list TaxonObj) : forall (old : list TaxonObj) (w : World),
  taxa w = old ++ objs ->
  mapM (fun t => x <- read_taxon t ;; ret (Taxon.str_label x))
       (seq (length old) (length objs)) w
  = (Ret (Taxon.str_label <$> objs), w).
Proof.
  induction objs as [|x objs IH]; intros old w Hw; [done|].
  cbn [length seq mapM].
  assert (Hx : taxa w !! length old = Some x) by (by rewrite Hw, list_lookup_middle).
  erewrite bind_ret_step; [|by step (read_taxon_step _ _ _ Hx)].
  replace (S (length old)) with (length (old ++ [x])) by (rewrite length_app; simpl; lia).
  rewrite (bind_ret_step _ _ _ _ _ (IH (old ++ [x]) w ltac:(by rewrite <- app_assoc))).
  done.
Qed.


Lemma to_taxon_labels_run (ls : list string) : forall w,
  mapM TaxonSet._to_taxon (VStr <$> ls) w =
    (Ret (seq (length (taxa w)) (length ls)),
     mkWorld (taxa w ++ fresh_taxa (length (taxa w)) (Some <$> ls)) (sets w)).
Proof.
  induction ls as [|l ls IH]; intros w.
  - simpl. unfold ret. by rewrite app_nil_r, world_eta.
  - cbn [fmap list_fmap mapM].
    set (w1 := mkWorld (taxa w ++ fresh_taxa (length (taxa w)) [Some l]) (sets w)).
    rewrite (bind_ret_step _ _ w (length (taxa w)) w1) by done.
    rewrite (bind_ret_step _ _ _ _ _ (IH w1)). unfold ret.
    cbn [w1 taxa sets]. rewrite length_app. cbn [length fresh_taxa seq].
    rewrite Nat.add_1_r, <- app_assoc. done.
Qed.

Lemma foldl_add_item (l : list tref) : forall acc,
  NoDup (acc ++ l) -> foldl OrderedSet.add_item acc l = acc ++ l.
Proof.
  induction l as [|x l IH]; intros acc Hnd; simpl.
  - by rewrite app_nil_r.
  - apply NoDup_app in Hnd as Hnd'. destruct Hnd' as (_ & Hdisj & _).
    unfold OrderedSet.add_item at 2.
    assert (Hx : OrderedSet.mem x acc = false).
    { apply mem_false. intros Hin. apply (Hdisj x Hin). left. }
    rewrite Hx, IH; rewrite <- app_assoc; done.
Qed.

(** A sequence without duplicates is taken over as it is. *)
Lemma of_list_NoDup (l : list tref) : NoDup l -> OrderedSet.of_list l = l.
Proof. intros Hnd. unfold OrderedSet.of_list. by rewrite foldl_add_item. Qed.

(** [TaxonSet(labels)] in any store: one new taxon for each label, in order. *)
Lemma new_from_labels_run (w : World) (ls : list string) (kw : TaxonSet.init_kwargs) :
  TaxonSet.__init__ [VStr <$> ls] kw w =
    (Ret (length (sets w)),
     mkWorld (taxa w ++ fresh_taxa (length (taxa w)) (Some <$> ls))
       (sets w ++ [mkTaxonSet (seq (length (taxa w)) (length ls))
                     (TaxonSet.kw_label kw)
                     (default (OidAuto (length (sets w))) (TaxonSet.kw_oid kw))
                     (default true (TaxonSet.kw_is_mutable kw))])).
Proof.
  unfold TaxonSet.__init__. step (to_taxon_labels_run ls w).
  unfold TaxonSet.alloc. cbn [taxa sets]. by rewrite of_list_NoDup by apply NoDup_seq.
Qed.

(** ** [taxon_bitmask] and the cached [clade_mask] *)

Lemma taxon_bitmask_cached w self t x m :
  taxa w !! t = Some x -> clade_mask x = Some m ->
  TaxonSet.taxon_bitmask self t w = (Ret m, w).
Proof.
  intros Hx Hc. unfold TaxonSet.taxon_bitmask.
  assert (Hget : TaxonSet.get_clade_mask t w = (Ret m, w)).
  { unfold TaxonSet.get_clade_mask. step (read_taxon_step _ _ _ Hx). by rewrite Hc. }
  erewrite bind_ret_step; [|unfold try_except; by step Hget]. done.
Qed.

Lemma taxon_bitmask_uncached w self o t x :
  sets w !! self = Some o -> taxa w !! t = Some x -> clade_mask x = None ->
  TaxonSet.taxon_bitmask self t w =
    match OrderedSet.index_of t (members o) with
    | Some i =>
        let m := Z.shiftl 1 (Z.of_nat i) in
        (Ret m, mkWorld (<[t := set_clade_mask x m]> (taxa w)) (sets w))
    | None => (Raise (ValueError TaxonNotFound), w)
    end.
Proof.
  intros Ho Hx Hc. unfold TaxonSet.taxon_bitmask.
  assert (Hget : TaxonSet.get_clade_mask t w = (Raise AttributeError, w)).
  { unfold TaxonSet.get_clade_mask. step (read_taxon_step _ _ _ Hx). by rewrite Hc. }
  erewrite bind_ret_step.
  2:{ unfold try_except. by rewrite (bind_raise_step _ _ _ _ _ Hget). }
  cbv beta iota. unfold try_except, OrderedSet.index.
  destruct (OrderedSet.index_of t (members o)) as [i|] eqn:Hi.
  - assert (Hidx : (o' <- read_set self ;;
                    match OrderedSet.index_of t (members o') with
                    | Some i => ret i
                    | None => raise (ValueError NotInList)
                    end) w = (Ret i, w))
      by (step (read_set_step _ _ _ Ho); by rewrite Hi).
    step Hidx. by step (read_taxon_step _ _ _ Hx).
  - assert (Hidx : (o' <- read_set self ;;
                    match OrderedSet.index_of t (members o') with
                    | Some i => ret i
                    | None => raise (ValueError NotInList)
                    end) w = (Raise (ValueError NotInList), w))
      by (step (read_set_step _ _ _ Ho); by rewrite Hi).
    by rewrite (bind_raise_step _ _ _ _ _ Hidx).
Qed.

Lemma first_match_here w t x l ms :
  taxa w !! t = Some x -> label x = Some l ->
  TaxonSet.first_match None (Some l) (t :: ms) w = (Ret (Some t), w).
Proof.
  intros Hx Hl. cbn [TaxonSet.first_match]. step (read_taxon_step _ _ _ Hx).
  unfold TaxonSet.matches. by rewrite bool_decide_eq_true_2.
Qed.

Lemma first_match_skip w t x l ms :
  taxa w !! t = Some x -> label x <> Some l ->
  TaxonSet.first_match None (Some l) (t :: ms) w
  = TaxonSet.first_match None (Some l) ms w.
Proof.
  intros Hx Hl. cbn [TaxonSet.first_match]. step (read_taxon_step _ _ _ Hx).
  unfold TaxonSet.matches. by rewrite bool_decide_eq_false_2.
Qed.

Lemma require_taxon_found w self o l t :
  sets w !! self = Some o ->
  TaxonSet.first_match None (Some l) (members o) w = (Ret (Some t), w) ->
  TaxonSet.require_taxon self (TaxonSet.by_label_only l) w = (Ret t, w).
Proof.
  intros Ho Hfind. unfold TaxonSet.require_taxon.
  assert (Hget : TaxonSet.get_taxon self (TaxonSet.by_label_only l) w = (Ret (Some t), w)).
  { unfold TaxonSet.get_taxon. simpl. by step (read_set_step _ _ _ Ho). }
  by step Hget.
Qed.

(** The masks of the registry built from the labels "A", "B", "C", in any
    store. *)
Lemma bitmasks_of_abc (w : World) :
  result (s <- TaxonSet.__init__ [[VStr "A"; VStr "B"; VStr "C"]] TaxonSet.no_kwargs ;;
          a <- TaxonSet.require_taxon s (TaxonSet.by_label_only "A") ;;
          b <- TaxonSet.require_taxon s (TaxonSet.by_label_only "B") ;;
          c <- TaxonSet.require_taxon s (TaxonSet.by_label_only "C") ;;
          ma <- TaxonSet.taxon_bitmask s a ;;
          mb <- TaxonSet.taxon_bitmask s b ;;
          mc <- TaxonSet.taxon_bitmask s c ;;
          all <- TaxonSet.all_taxa_bitmask s ;;
          ret (ma, mb, mc, all)) w
  = Ret (1, 2, 4, 7)%Z.
Proof.
  unfold result.
  step (new_from_labels_run w ["A"; "B"; "C"]%string TaxonSet.no_kwargs).
  cbn [length seq fmap list_fmap fresh_taxa TaxonSet.kw_label TaxonSet.kw_oid
         TaxonSet.kw_is_mutable TaxonSet.no_kwargs default].
  set (L := length (taxa w)). set (S0 := length (sets w)).
  set (xa := mkTaxon (Some "A"%string) _ _). set (xb := mkTaxon (Some "B"%string) _ _).
  set (xc := mkTaxon (Some "C"%string) _ _).
  set (o := mkTaxonSet _ _ _ _). set (w1 := mkWorld _ _).
  assert (Ho : sets w1 !! S0 = Some o) by apply lookup_fresh.
  assert (Ha : taxa w1 !! L = Some xa) by apply list_lookup_middle, eq_refl.
  assert (Hb : taxa w1 !! S L = Some xb).
  { cbn [w1 taxa]. change (taxa w ++ xa :: xb :: [xc]) with (taxa w ++ [xa] ++ xb :: [xc]).
    rewrite app_assoc. apply list_lookup_middle. rewrite length_app. simpl. lia. }
  assert (Hc : taxa w1 !! S (S L) = Some xc).
  { cbn [w1 taxa]. change (taxa w ++ xa :: xb :: [xc]) with (taxa w ++ [xa; xb] ++ [xc]).
    rewrite app_assoc. apply list_lookup_middle. rewrite length_app. simpl. lia. }
  assert (Hnd : NoDup (members o)) by apply (NoDup_seq L 3).
  (* the three lookups by label *)
  rewrite (bind_ret_step _ _ _ _ _ (require_taxon_found w1 S0 o "A" L Ho
             (first_match_here _ _ _ _ _ Ha eq_refl))).
  rewrite (bind_ret_step (TaxonSet.require_taxon _ _) _ _ _ _
             (require_taxon_found w1 S0 o "B" (S L) Ho
                (eq_trans (first_match_skip _ _ _ "B" _ Ha ltac:(done))
                          (first_match_here _ _ _ _ _ Hb eq_refl)))).
  rewrite (bind_ret_step (TaxonSet.require_taxon _ _) _ _ _ _
             (require_taxon_found w1 S0 o "C" (S (S L)) Ho
                (eq_trans (first_match_skip _ _ _ "C" _ Ha ltac:(done))
                   (eq_trans (first_match_skip _ _ _ "C" _ Hb ltac:(done))
                             (first_match_here _ _ _ _ _ Hc eq_refl))))).
  (* the three masks, each stored on its taxon *)
  pose proof (taxon_bitmask_uncached w1 S0 o L xa Ho Ha eq_refl) as Hma.
  rewrite (index_of_lookup L (members o) 0 Hnd eq_refl) in Hma. cbn zeta in Hma.
  step Hma. set (w2 := mkWorld _ _).
  assert (Hb2 : taxa w2 !! S L = Some xb)
    by (cbn [w2 taxa]; rewrite list_lookup_insert_ne by lia; exact Hb).
  assert (Hc2 : taxa w2 !! S (S L) = Some xc)
    by (cbn [w2 taxa]; rewrite list_lookup_insert_ne by lia; exact Hc).
  pose proof (taxon_bitmask_uncached w2 S0 o (S L) xb Ho Hb2 eq_refl) as Hmb.
  rewrite (index_of_lookup (S L) (members o) 1 Hnd eq_refl) in Hmb. cbn zeta in Hmb.
  step Hmb. set (w3 := mkWorld _ _).
  assert (Hc3 : taxa w3 !! S (S L) = Some xc)
    by (cbn [w3 taxa]; rewrite list_lookup_insert_ne by lia; exact Hc2).
  pose proof (taxon_bitmask_uncached w3 S0 o (S (S L)) xc Ho Hc3 eq_refl) as Hmc.
  rewrite (index_of_lookup (S (S L)) (members o) 2 Hnd eq_refl) in Hmc. cbn zeta in Hmc.
  step Hmc. set (w4 := mkWorld _ _).
  by step (all_taxa_bitmask_run w4 S0 o Ho).
Qed.

(** C1, as the code has it: [taxon_bitmask] returns a [clade_mask] that the
    taxon carries before it looks at the position.  The taxon "A" gets the
    mask 1 at position 0; after [clear()], a new taxon "B" and [add_taxon] of
    "A" again, "A" stands at position 1 and its mask is still 1, not
    [1 << 1], and it is the mask that "B" gets too. *)
Theorem readded_taxon_keeps_old_bitmask :
  let prog := (s <- TaxonSet.__init__ [[VStr "A"]] TaxonSet.no_kwargs ;;
               a <- TaxonSet.require_taxon s (TaxonSet.by_label_only "A") ;;
               _ <- TaxonSet.taxon_bitmask s a ;;
               TaxonSet.clear s ;;;
               b <- TaxonSet.new_taxon s (Some "B"%string) None false ;;
               TaxonSet.add_taxon s a ;;;
               i <- OrderedSet.index s a ;;
               ma <- TaxonSet.taxon_bitmask s a ;;
               mb <- TaxonSet.taxon_bitmask s b ;;
               ret (i, ma, mb)) in
  result prog empty_world = Ret (1, 1%Z, 1%Z)
  /\ 1%Z <> Z.shiftl 1 (Z.of_nat 1).
Proof. by vm_compute. Qed.

(** X25: in a registry without duplicates, a member at position [i] that
    carries no [clade_mask], or carries [1 << i], gets the mask [1 << i] from
    [taxon_bitmask] and carries it afterwards; [all_taxa_bitmask()] is
    [(1 << n) - 1], that is [2^n - 1], for [n] members; and for the registry
    built from the labels "A", "B", "C" the masks are 1, 2, 4 and 7. *)
Theorem taxon_bitmask_by_position :
  (forall (w : World) (self : sref) (o : TaxonSetObj) (i : nat) (t : tref) (x : TaxonObj),
      sets w !! self = Some o ->
      NoDup (members o) ->
      members o !! i = Some t ->
      taxa w !! t = Some x ->
      clade_mask x = None \/ clade_mask x = Some (Z.shiftl 1 (Z.of_nat i)) ->
      result (TaxonSet.taxon_bitmask self t) w = Ret (Z.shiftl 1 (Z.of_nat i))
      /\ clade_mask <$> taxa (after (TaxonSet.taxon_bitmask self t) w) !! t
         = Some (Some (Z.shiftl 1 (Z.of_nat i))))
  /\ (forall (w : World) (self : sref) (o : TaxonSetObj),
         sets w !! self = Some o ->
         let n := Z.of_nat (length (members o)) in
         run (TaxonSet.all_taxa_bitmask self) w = (Ret (Z.shiftl 1 n - 1)%Z, w)
         /\ (Z.shiftl 1 n - 1 = 2 ^ n - 1)%Z)
  /\ (forall w : World,
         result (s <- TaxonSet.__init__ [[VStr "A"; VStr "B"; VStr "C"]] TaxonSet.no_kwargs ;;
                 a <- TaxonSet.require_taxon s (TaxonSet.by_label_only "A") ;;
                 b <- TaxonSet.require_taxon s (TaxonSet.by_label_only "B") ;;
                 c <- TaxonSet.require_taxon s (TaxonSet.by_label_only "C") ;;
                 ma <- TaxonSet.taxon_bitmask s a ;;
                 mb <- TaxonSet.taxon_bitmask s b ;;
                 mc <- TaxonSet.taxon_bitmask s c ;;
                 all <- TaxonSet.all_taxa_bitmask s ;;
                 ret (ma, mb, mc, all)) w
         = Ret (1, 2, 4, 7)%Z).
Proof.
  split; [|split].
  - intros w self o i t x Ho Hnd Hi Hx [Hc|Hc]; unfold result, after.
    + rewrite (taxon_bitmask_uncached _ _ _ _ _ Ho Hx Hc).
      rewrite (index_of_lookup _ _ _ Hnd Hi). simpl. split; [done|].
      by rewrite list_lookup_insert_eq by (by eapply lookup_lt_Some).
    + rewrite (taxon_bitmask_cached _ _ _ _ _ Hx Hc). cbn [fst snd].
      split; [done|]. rewrite <- Hc. exact (f_equal (fmap clade_mask) Hx).
  - intros w self o Ho n. unfold run.
    rewrite (all_taxa_bitmask_run _ _ _ Ho), Z.sub_1_r. split; [done|].
    rewrite Z.shiftl_mul_pow2 by lia. lia.
  - apply bitmasks_of_abc.
Qed.

Lemma taxon_bitmask_by_position_witness :
  let w1 := after (TaxonSet.taxon_bitmask 0 2) registry_abc in
  result (TaxonSet.taxon_bitmask 0 2) w1 = Ret 4%Z
  /\ clade_mask <$> taxa (after (TaxonSet.taxon_bitmask 0 2) w1) !! 2
     = Some (Some 4%Z).
Proof.
  apply (proj1 taxon_bitmask_by_position
           (after (TaxonSet.taxon_bitmask 0 2) registry_abc) 0
           (mkTaxonSet [0; 1; 2] None (OidAuto 0) true) 2 2
           (mkTaxon (Some "C"%string) (OidAuto 2) (Some 4%Z))).
  - reflexivity.
  - apply NoDup_ListNoDup. repeat constructor; simpl; lia.
  - reflexivity.
  - reflexivity.
  - right. reflexivity.
Defined.

(** C5, as the code has it: for a taxon that carries a [clade_mask],
    [taxon_bitmask] returns it without looking the taxon up.  "A" got the
    mask 1 as a member; after [clear()] it is not a member any more, and it
    never was a member of a second registry, yet [taxon_bitmask] returns 1
    through both instead of raising the [ValueError]. *)
Theorem cached_bitmask_returned_for_non_member :
  let prog := (s <- TaxonSet.__init__ [[VStr "A"]] TaxonSet.no_kwargs ;;
               a <- TaxonSet.require_taxon s (TaxonSet.by_label_only "A") ;;
               _ <- TaxonSet.taxon_bitmask s a ;;
               TaxonSet.clear s ;;;
               n <- OrderedSet.len s ;;
               m1 <- TaxonSet.taxon_bitmask s a ;;
               s2 <- TaxonSet.__init__ [] TaxonSet.no_kwargs ;;
               m2 <- TaxonSet.taxon_bitmask s2 a ;;
               ret (n, m1, m2)) in
  result prog empty_world = Ret (0, 1%Z, 1%Z).
Proof. by vm_compute. Qed.

(** X26: for a taxon that is not a member and carries no [clade_mask],
    [taxon_bitmask] raises the [ValueError] "not found" and changes nothing;
    a taxon that carries a [clade_mask] gets that value back, member or not;
    and for a member the call never fails. *)
Theorem taxon_bitmask_fails_on_uncached_non_member
    (w : World) (self : sref) (o : TaxonSetObj) (t : tref) (x : TaxonObj) :
  sets w !! self = Some o ->
  taxa w !! t = Some x ->
  (t ∉ members o -> clade_mask x = None ->
   run (TaxonSet.taxon_bitmask self t) w = (Raise (ValueError TaxonNotFound), w))
  /\ (forall m, clade_mask x = Some m ->
                run (TaxonSet.taxon_bitmask self t) w = (Ret m, w))
  /\ (t ∈ members o -> exists m, result (TaxonSet.taxon_bitmask self t) w = Ret m).
Proof.
  intros Ho Hx. unfold run, result. split; [|split].
  - intros Hn Hc. rewrite (taxon_bitmask_uncached _ _ _ _ _ Ho Hx Hc).
    apply index_of_None in Hn. by rewrite Hn.
  - intros m Hc. by apply taxon_bitmask_cached with x.
  - intros Hin. destruct (clade_mask x) as [m|] eqn:Hc.
    + exists m. by rewrite (taxon_bitmask_cached _ _ _ _ _ Hx Hc).
    + rewrite (taxon_bitmask_uncached _ _ _ _ _ Ho Hx Hc).
      destruct (OrderedSet.index_of t (members o)) as [i|] eqn:Hi; [by eauto|].
      by apply index_of_None in Hi.
Qed.

Lemma taxon_bitmask_fails_on_uncached_non_member_witness :
  let w := after (Taxon.__init__ (Some "D"%string) None) registry_abc in
  run (TaxonSet.taxon_bitmask 0 3) w = (Raise (ValueError TaxonNotFound), w).
Proof.
  apply (proj1 (taxon_bitmask_fails_on_uncached_non_member
                  (after (Taxon.__init__ (Some "D"%string) None) registry_abc) 0
                  (mkTaxonSet [0; 1; 2] None (OidAuto 0) true) 3
                  (mkTaxon (Some "D"%string) (OidAuto 3) None) eq_refl eq_refl)).
  - rewrite list_elem_of_In. simpl. lia.
  - reflexivity.
Defined.

(** ** The labels of [new_taxon_set] *)

(** What [new_taxon_set] builds in any store: a new registry whose members
    are new taxa, taxon [i] (from 1) labelled [label_func(i)]. *)
Lemma new_taxon_set_run (int_log10 : Z -> Z) (w : World) (ntax : Z)
    (label_func : option (N -> string)) :
  (label_func = None -> (0 < ntax)%Z) ->
  let f := default (label_template (int_log10 ntax + 1)) label_func in
  let ls := (fun i => Some (f (N.of_nat (i + 1)))) <$> seq 0 (Z.to_nat ntax) in
  new_taxon_set int_log10 ntax label_func w =
    (Ret (length (sets w)),
     mkWorld (taxa w ++ fresh_taxa (length (taxa w)) ls)
       (sets w ++ [mkTaxonSet (seq (length (taxa w)) (length ls)) None
                     (OidAuto (length (sets w))) true])).
Proof.
  intros Hpos f ls. unfold new_taxon_set.
  step (new_empty_run w TaxonSet.no_kwargs).
  set (o := mkTaxonSet _ _ _ _). set (w1 := mkWorld _ _).
  assert (Hf : match label_func with
               | Some f => ret f
               | None => if (ntax <=? 0)%Z then raise (ValueError MathDomainError)
                         else let label_idx_length := (int_log10 ntax + 1)%Z in
                              ret (label_template label_idx_length)
               end w1 = (Ret f, w1)).
  { subst f. destruct label_func as [g|]; [done|].
    specialize (Hpos eq_refl). by rewrite (proj2 (Z.leb_gt _ _)). }
  step Hf.
  assert (Ho : sets w1 !! length (sets w) = Some o) by apply lookup_fresh.
  rewrite (for_each_map (fun i => Some (f (N.of_nat (i + 1))))
             (fun l => _ <- TaxonSet.new_taxon (length (sets w)) l None false ;; ret tt)).
  rewrite (bind_ret_step _ _ _ _ _
             (for_each_new_taxon _ _ w1 o Ho eq_refl (Forall_nil_2 _))).
  unfold ret. do 2 f_equal. subst w1 o. cbn [sets taxa set_members members app].
  replace (length (sets w)) with (length (sets w) + 0) at 1 by lia.
  by rewrite insert_app_r.
Qed.

Lemma new_taxon_set_labels (int_log10 : Z -> Z) (w : World) (ntax : Z)
    (label_func : option (N -> string)) :
  (label_func = None -> (0 < ntax)%Z) ->
  let f := default (label_template (int_log10 ntax + 1)) label_func in
  result (s <- new_taxon_set int_log10 ntax label_func ;; TaxonSet.labels s) w
  = Ret ((fun i => f (N.of_nat (i + 1))) <$> seq 0 (Z.to_nat ntax)).
Proof.
  intros Hpos f. unfold result.
  step (new_taxon_set_run int_log10 w ntax label_func Hpos).
  fold f. set (ls := (fun i => Some (f (N.of_nat (i + 1)))) <$> seq 0 (Z.to_nat ntax)).
  set (w2 := mkWorld _ _).
  unfold TaxonSet.labels.
  rewrite (bind_ret_step _ _ _ _ _ (read_set_step w2 _ _ (lookup_fresh _ _))).
  cbn [members].
  rewrite <- (length_fresh_taxa (length (taxa w)) ls).
  rewrite (mapM_str_label _ (taxa w) w2 eq_refl). cbn [fst].
  rewrite str_label_fresh_taxa. subst ls. by rewrite <- list_fmap_compose.
Qed.

Lemma new_taxon_set_default_labels_run (w : World) (ntax width : Z) :
  (0 < ntax)%Z ->
  float_int_log10 ntax = (width - 1)%Z ->
  result (s <- new_taxon_set float_int_log10 ntax None ;; TaxonSet.labels s) w
  = Ret ((fun i => "T" +:+ zero_pad (Z.to_nat width) (pretty (N.of_nat (i + 1))))
           <$> seq 0 (Z.to_nat ntax)).
Proof.
  intros Hpos Hlog. rewrite new_taxon_set_labels by done.
  rewrite Hlog. cbn [default]. unfold label_template.
  by replace (width - 1 + 1)%Z with width by lia.
Qed.

(** C9, as the code has it: the width of the index is
    [int(math.log(ntax, 10)) + 1], computed in floating point.  It is the
    number of digits of the count for 100 and for 5, where
    [new_taxon_set] gives "T001" to "T100" and "T1" to "T5".  For 1000 the
    quotient of the logarithms is 2.9999999999999996, the width is 3 and
    not 4, and [new_taxon_set(1000)] gives "T001" to "T999" and then
    "T1000", not "T0001" to "T1000". *)
Theorem new_taxon_set_width_from_float_log (w : World) :
  math_log 1000 10 = Some 0x1.7ffffffffffffp+1%float
  /\ float_int_log10 100 = 2%Z
  /\ float_int_log10 5 = 0%Z
  /\ float_int_log10 1000 = 2%Z
  /\ decimal_digits 1000 = 4
  /\ result (s <- new_taxon_set float_int_log10 100 None ;; TaxonSet.labels s) w
     = Ret labels_T001_T100
  /\ result (s <- new_taxon_set float_int_log10 5 None ;; TaxonSet.labels s) w
     = Ret ["T1"; "T2"; "T3"; "T4"; "T5"]%string
  /\ (exists labels,
        result (s <- new_taxon_set float_int_log10 1000 None ;; TaxonSet.labels s) w
        = Ret labels
        /\ labels = (fun i => "T" +:+ zero_pad 3 (pretty (N.of_nat (i + 1))))
                      <$> seq 0 1000
        /\ labels !! 0 = Some "T001"%string
        /\ labels !! 998 = Some "T999"%string
        /\ labels !! 999 = Some "T1000"%string
        /\ labels <> (fun i => "T" +:+ zero_pad (decimal_digits 1000)
                                         (pretty (N.of_nat (i + 1))))
                       <$> seq 0 1000).
Proof.
  split; [by vm_compute|]. split; [by vm_compute|]. split; [by vm_compute|].
  split; [by vm_compute|]. split; [by vm_compute|].
  split; [|split].
  - rewrite (new_taxon_set_default_labels_run w 100 3) by (lia || by vm_compute).
    by vm_compute.
  - rewrite (new_taxon_set_default_labels_run w 5 1) by (lia || by vm_compute).
    by vm_compute.
  - eexists. split.
    + by rewrite (new_taxon_set_default_labels_run w 1000 3) by (lia || by vm_compute).
    + split; [done|]. split; [by vm_compute|]. split; [by vm_compute|].
      split; [by vm_compute|].
      intros Heq. apply (f_equal (fun l => l !! 0)) in Heq. by vm_compute in Heq.
Qed.

(** * Further properties of the module *)

(** ** Lookups: [get_taxon], [require_taxon], [has_taxon], [has_taxa] *)

Lemma allocated_lookup w t : t < length (taxa w) -> exists x, taxa w !! t = Some x.
Proof. intros H. by apply lookup_lt_is_Some_2 in H as [x Hx]; eauto. Qed.

Lemma first_match_label_spec (w : World) (l : string) (ms : list tref) :
  Forall (fun t => t < length (taxa w)) ms ->
  exists r, TaxonSet.first_match None (Some l) ms w = (Ret r, w)
    /\ match r with
       | Some t => exists i, ms !! i = Some t /\ labelled w l t
                     /\ forall j t', j < i -> ms !! j = Some t' -> ~ labelled w l t'
       | None => forall t, t ∈ ms -> ~ labelled w l t
       end.
Proof.
  induction 1 as [|t ms Ht _ (r & Hrun & Hr)].
  - exists None. split; [done|]. intros t Hin. by apply not_elem_of_nil in Hin.
  - destruct (allocated_lookup _ _ Ht) as [x Hx].
    destruct (decide (label x = Some l)) as [Hl|Hl].
    + exists (Some t). split; [by eapply first_match_here|].
      exists 0. split; [done|]. split; [by exists x|]. intros j t' Hj. lia.
    + assert (Hnot : ~ labelled w l t).
      { intros (x' & Hx' & Hl'). by pose proof (eq_trans (eq_sym Hx) Hx') as [= ->]. }
      exists r. split; [by rewrite (first_match_skip _ _ _ _ _ Hx Hl)|].
      destruct r as [u|].
      * destruct Hr as (i & Hi & Hlab & Hfirst). exists (S i).
        split; [done|]. split; [done|]. intros [|j] t' Hj; simpl.
        -- by intros [= <-].
        -- apply Hfirst. lia.
      * intros t' [->|Hin]%elem_of_cons; [done|by apply Hr].
Qed.

(** X1: [get_taxon(label=l)] only reads: the store is unchanged.  It returns
    the first member, in the order of the registry, that carries the label
    [l], and [None] exactly when no member carries it. *)
Theorem get_taxon_returns_first_labelled
    (w : World) (self : sref) (o : TaxonSetObj) (l : string) :
  sets w !! self = Some o ->
  allocated w o ->
  exists r, run (TaxonSet.get_taxon self (TaxonSet.by_label_only l)) w = (Ret r, w)
    /\ match r with
       | Some t => exists i, members o !! i = Some t /\ labelled w l t
                     /\ forall j t', j < i -> members o !! j = Some t' -> ~ labelled w l t'
       | None => forall t, t ∈ members o -> ~ labelled w l t
       end.
Proof.
  intros Ho Hall. destruct (first_match_label_spec w l _ Hall) as (r & Hrun & Hr).
  exists r. split; [|done]. unfold run, TaxonSet.get_taxon. simpl.
  by step (read_set_step _ _ _ Ho).
Qed.

Lemma get_taxon_returns_first_labelled_witness :
  exists r, run (TaxonSet.get_taxon 0 (TaxonSet.by_label_only "B")) registry_abc
            = (Ret r, registry_abc)
    /\ match r with
       | Some t => exists i, [0; 1; 2] !! i = Some t /\ labelled registry_abc "B" t
                     /\ forall j t', j < i -> [0; 1; 2] !! j = Some t'
                                     -> ~ labelled registry_abc "B" t'
       | None => forall t, t ∈ [0; 1; 2] -> ~ labelled registry_abc "B" t
       end.
Proof.
  apply (get_taxon_returns_first_labelled registry_abc 0
           (mkTaxonSet [0; 1; 2] None (OidAuto 0) true) "B").
  - reflexivity.
  - repeat constructor; simpl; lia.
Defined.

Lemma add_fresh_run (w : World) (self : sref) (o : TaxonSetObj) (n : tref) :
  sets w !! self = Some o ->
  Forall (fun t => t < n) (members o) ->
  OrderedSet.add self n w =
    (Ret tt, mkWorld (taxa w) (<[self := set_members o (members o ++ [n])]> (sets w))).
Proof.
  intros Ho Hall. unfold OrderedSet.add. step (read_set_step _ _ _ Ho).
  unfold OrderedSet.add_item. by rewrite mem_fresh_address.
Qed.

Lemma labelled_extend (w : World) (l : string) (t : tref) (xs : list TaxonObj)
    (ss : list TaxonSetObj) :
  t < length (taxa w) ->
  labelled (mkWorld (taxa w ++ xs) ss) l t <-> labelled w l t.
Proof.
  intros Ht. unfold labelled. cbn [taxa]. by rewrite lookup_app_l.
Qed.

Lemma not_labelled_Forall (w : World) (l : string) (ms : list tref) :
  Forall (fun t => t < length (taxa w)) ms ->
  (forall t, t ∈ ms -> ~ labelled w l t) ->
  Forall (fun t => exists x, taxa w !! t = Some x /\ label x <> Some l) ms.
Proof.
  intros Hall Hno. apply Forall_forall. intros t Hin.
  rewrite Forall_forall in Hall.
  destruct (allocated_lookup _ _ (Hall t Hin)) as [x Hx].
  exists x. split; [done|]. intros Hl. apply (Hno t Hin). by exists x.
Qed.

Lemma first_match_app_skip (w : World) (l : string) (pre suf : list tref) :
  Forall (fun t => exists x, taxa w !! t = Some x /\ label x <> Some l) pre ->
  TaxonSet.first_match None (Some l) (pre ++ suf) w
  = TaxonSet.first_match None (Some l) suf w.
Proof.
  induction 1 as [|t pre (x & Hx & Hl) _ IH]; [done|].
  cbn [app]. by rewrite (first_match_skip _ _ _ _ _ Hx Hl).
Qed.

(** X2: on an unlocked registry in which no member carries the label [l],
    [require_taxon(label=l)] creates one taxon labelled [l], without a
    [clade_mask], and puts it last; a second call returns that same taxon and
    changes nothing. *)
Theorem require_taxon_creates_once
    (w : World) (self : sref) (o : TaxonSetObj) (l : string) :
  sets w !! self = Some o ->
  _is_mutable o = true ->
  allocated w o ->
  (forall t, t ∈ members o -> ~ labelled w l t) ->
  let t := length (taxa w) in
  let w' := mkWorld (taxa w ++ [mkTaxon (Some l) (OidAuto t) None])
              (<[self := set_members o (members o ++ [t])]> (sets w)) in
  run (TaxonSet.require_taxon self (TaxonSet.by_label_only l)) w = (Ret t, w')
  /\ run (TaxonSet.require_taxon self (TaxonSet.by_label_only l)) w' = (Ret t, w').
Proof.
  intros Ho Hm Hall Hno t w'. unfold run.
  pose proof (not_labelled_Forall _ _ _ Hall Hno) as Hno'.
  split.
  - unfold TaxonSet.require_taxon.
    assert (Hget : TaxonSet.get_taxon self (TaxonSet.by_label_only l) w = (Ret None, w)).
    { unfold TaxonSet.get_taxon. simpl. step (read_set_step _ _ _ Ho).
      by apply first_match_none. }
    step Hget. step (read_set_step _ _ _ Ho). rewrite Hm.
    set (w1 := mkWorld (taxa w ++ [mkTaxon (Some l) (OidAuto t) None]) (sets w)).
    rewrite (bind_ret_step _ _ w t w1) by done.
    by step (add_fresh_run w1 self o t Ho Hall).
  - assert (Hlt : self < length (sets w)) by (by eapply lookup_lt_Some).
    apply require_taxon_found with (set_members o (members o ++ [t])).
    + by apply list_lookup_insert_eq.
    + cbn [set_members members]. rewrite first_match_app_skip.
      * eapply first_match_here; [apply lookup_fresh|done].
      * unfold allocated in Hall. rewrite Forall_forall in Hall, Hno'.
        apply Forall_forall. intros u Hin.
        destruct (Hno' u Hin) as (x & Hx & Hl). exists x. split; [|done].
        cbn [w' taxa]. rewrite lookup_app_l; [done|by apply Hall].
Qed.

Lemma require_taxon_creates_once_witness :
  let w' := mkWorld (taxa registry_abc ++ [mkTaxon (Some "D"%string) (OidAuto 3) None])
              [mkTaxonSet [0; 1; 2; 3] None (OidAuto 0) true] in
  run (TaxonSet.require_taxon 0 (TaxonSet.by_label_only "D")) registry_abc = (Ret 3, w')
  /\ run (TaxonSet.require_taxon 0 (TaxonSet.by_label_only "D")) w' = (Ret 3, w').
Proof.
  apply (require_taxon_creates_once registry_abc 0
           (mkTaxonSet [0; 1; 2] None (OidAuto 0) true) "D").
  - reflexivity.
  - reflexivity.
  - repeat constructor; simpl; lia.
  - intros t Hin (x & Hx & Hl). apply list_elem_of_In in Hin. simpl in Hin.
    destruct Hin as [<-|[<-|[<-|[]]]]; by injection Hx as <-.
Defined.

(** X3: when a member carries the label [l], [require_taxon(label=l)]
    returns the first such member and changes nothing, on a locked registry
    as on an unlocked one. *)
Theorem require_taxon_returns_existing
    (w : World) (self : sref) (o : TaxonSetObj) (l : string) (i : nat) (t : tref) :
  sets w !! self = Some o ->
  allocated w o ->
  members o !! i = Some t ->
  labelled w l t ->
  (forall j t', j < i -> members o !! j = Some t' -> ~ labelled w l t') ->
  run (TaxonSet.require_taxon self (TaxonSet.by_label_only l)) w = (Ret t, w).
Proof.
  intros Ho Hall Hi (x & Hx & Hl) Hfirst. unfold run.
  apply require_taxon_found with o; [done|].
  rewrite <- (take_drop_middle _ _ _ Hi). rewrite first_match_app_skip.
  - by eapply first_match_here.
  - apply not_labelled_Forall.
    + unfold allocated in Hall. rewrite <- (take_drop i (members o)) in Hall.
      by apply Forall_app in Hall as [Hall _].
    + intros u Hin. apply list_elem_of_lookup in Hin as [j Hj].
      apply lookup_take_Some in Hj as [Hj Hlt]. by eapply Hfirst.
Qed.

Lemma require_taxon_returns_existing_witness :
  run (TaxonSet.require_taxon 0 (TaxonSet.by_label_only "A")) locked_singleton
  = (Ret 0, locked_singleton).
Proof.
  apply (require_taxon_returns_existing locked_singleton 0
           (mkTaxonSet [0] None (OidAuto 0) false) "A" 0 0).
  - reflexivity.
  - repeat constructor; simpl; lia.
  - reflexivity.
  - exists (mkTaxon (Some "A"%string) (OidAuto 0) None). split; reflexivity.
  - intros j t' Hj. lia.
Defined.

Lemma any_match_agrees (w : World) (id : option oid_t) (lbl : option string)
    (ms : list tref) (r : option tref) :
  result (TaxonSet.first_match id lbl ms) w = Ret r ->
  TaxonSet.any_match None id lbl ms w = (Ret (bool_decide (is_Some r)), w).
Proof.
  unfold result. revert r. induction ms as [|t ms IH]; intros r.
  - simpl. by intros [= <-].
  - cbn [TaxonSet.first_match TaxonSet.any_match].
    destruct (taxa w !! t) as [x|] eqn:Hx.
    + step (read_taxon_step _ _ _ Hx).
      assert (Hm : TaxonSet.taxon_matches None id lbl t w
                   = (Ret (TaxonSet.matches id lbl x), w)).
      { unfold TaxonSet.taxon_matches.
        destruct id as [i|], lbl as [l|]; try by step (read_taxon_step _ _ _ Hx).
        done. }
      step Hm. destruct (TaxonSet.matches id lbl x).
      * by intros [= <-].
      * apply IH.
    + unfold bind at 1, read_taxon. by rewrite Hx.
Qed.

(** X4: [has_taxon] and [get_taxon] agree: whenever [get_taxon] with some
    [oid] and [label] keywords returns, [has_taxon] with the same keywords
    returns [True] exactly when [get_taxon] found a taxon, and changes
    nothing. *)
Theorem has_taxon_agrees_with_get_taxon
    (w : World) (self : sref) (kw : TaxonSet.lookup_kwargs) (r : option tref) :
  result (TaxonSet.get_taxon self kw) w = Ret r ->
  run (TaxonSet.has_taxon self
         (TaxonSet.mkHasTaxonKw None (TaxonSet.by_oid kw) (TaxonSet.by_label kw))) w
  = (Ret (bool_decide (is_Some r)), w).
Proof.
  unfold result, run, TaxonSet.get_taxon, TaxonSet.has_taxon.
  cbn [TaxonSet.with_taxon TaxonSet.with_oid TaxonSet.with_label mjoin].
  destruct (sets w !! self) as [o|] eqn:Ho.
  - destruct (TaxonSet.by_oid kw) as [i|], (TaxonSet.by_label kw) as [l|];
      try (step (read_set_step _ _ _ Ho); by apply any_match_agrees).
    by intros [=].
  - destruct (TaxonSet.by_oid kw) as [i|], (TaxonSet.by_label kw) as [l|];
      try (unfold bind at 1, read_set; rewrite Ho; by intros [=]).
    by intros [=].
Qed.

Lemma has_taxon_agrees_with_get_taxon_witness :
  run (TaxonSet.has_taxon 0 (TaxonSet.mkHasTaxonKw None None (Some (Some "B"%string))))
    registry_abc
  = (Ret (bool_decide (is_Some (Some 1))), registry_abc).
Proof.
  apply (has_taxon_agrees_with_get_taxon registry_abc 0 (TaxonSet.by_label_only "B")
           (Some 1)).
  reflexivity.
Defined.

Lemma any_match_identity (w : World) (t : tref) (ms : list tref) :
  TaxonSet.any_match (Some t) None None ms w = (Ret (bool_decide (t ∈ ms)), w).
Proof.
  induction ms as [|u ms IH]; [done|].
  cbn [TaxonSet.any_match]. unfold TaxonSet.taxon_matches.
  destruct (decide (t = u)) as [->|Hne].
  - rewrite bool_decide_eq_true_2 by done.
    rewrite (bind_ret_step _ _ w true w) by done.
    rewrite bool_decide_eq_true_2; [done|left].
  - rewrite (bool_decide_eq_false_2 (t = u)) by done.
    rewrite (bind_ret_step _ _ w false w) by done. rewrite IH.
    do 2 f_equal. apply bool_decide_ext. rewrite elem_of_cons.
    split; [by right|by intros [?|?]].
Qed.

Lemma has_taxon_identity_run (w : World) (self : sref) (o : TaxonSetObj) (t : tref) :
  sets w !! self = Some o ->
  TaxonSet.has_taxon self (TaxonSet.mkHasTaxonKw (Some (Some t)) None None) w
  = (Ret (bool_decide (t ∈ members o)), w).
Proof.
  intros Ho. unfold TaxonSet.has_taxon. simpl.
  step (read_set_step _ _ _ Ho). apply any_match_identity.
Qed.

(** X5: [has_taxon(taxon=t)] tests identity: it returns [True] exactly when
    the object [t] itself is a member, whatever the labels are, without
    reading any attribute and without changing anything. *)
Theorem has_taxon_by_identity (w : World) (self : sref) (o : TaxonSetObj) (t : tref) :
  sets w !! self = Some o ->
  run (TaxonSet.has_taxon self (TaxonSet.mkHasTaxonKw (Some (Some t)) None None)) w
  = (Ret (bool_decide (t ∈ members o)), w).
Proof. intros Ho. by apply has_taxon_identity_run. Qed.

Lemma has_taxon_by_identity_witness :
  run (TaxonSet.has_taxon 0 (TaxonSet.mkHasTaxonKw (Some (Some 7)) None None))
    registry_abc
  = (Ret (bool_decide (7 ∈ [0; 1; 2])), registry_abc).
Proof.
  apply (has_taxon_by_identity registry_abc 0
           (mkTaxonSet [0; 1; 2] None (OidAuto 0) true) 7).
  reflexivity.
Defined.

Lemma mapM_read_attribute {A} (f : TaxonObj -> A) (w : World) (ms : list tref) :
  Forall (fun t => t < length (taxa w)) ms ->
  exists xs, mapM (fun t => x <- read_taxon t ;; ret (f x)) ms w = (Ret (f <$> xs), w)
             /\ Forall2 (fun t x => taxa w !! t = Some x) ms xs.
Proof.
  induction 1 as [|t ms Ht _ (xs & Hrun & Hxs)].
  - by exists [].
  - destruct (allocated_lookup _ _ Ht) as [x Hx]. exists (x :: xs).
    split; [|by constructor]. cbn [mapM].
    erewrite bind_ret_step; [|by step (read_taxon_step _ _ _ Hx)].
    by step Hrun.
Qed.

Lemma issubset_true {A} `{EqDecision A} (a b : list A) :
  TaxonSet.issubset a b = true <-> forall x, x ∈ a -> x ∈ b.
Proof.
  unfold TaxonSet.issubset. induction a as [|y a IH]; simpl.
  - split; [|done]. intros _ x Hx. by apply not_elem_of_nil in Hx.
  - rewrite andb_true_iff, IH, bool_decide_eq_true. split.
    + intros [Hy Ha] x [->|Hx]%elem_of_cons; [done|by apply Ha].
    + intros Hall. split; [apply Hall; left|].
      intros x Hx. apply Hall. by right.
Qed.

(** X6: [has_taxa(labels=ls)] returns [True] exactly when every label of
    [ls] is the label of some member, and changes nothing.  A label [None]
    in [ls] is matched by a member without a label, whereas
    [has_taxon(label=None)] is [False] on every registry. *)
Theorem has_taxa_labels_all_present
    (w : World) (self : sref) (o : TaxonSetObj) (ls : list (option string)) :
  sets w !! self = Some o ->
  allocated w o ->
  (exists b, run (TaxonSet.has_taxa self (TaxonSet.mkHasTaxaKw None None (Some ls))) w
             = (Ret b, w)
     /\ (b = true <->
         forall l, l ∈ ls ->
           exists t x, t ∈ members o /\ taxa w !! t = Some x /\ label x = l))
  /\ run (TaxonSet.has_taxon self (TaxonSet.mkHasTaxonKw None None (Some None))) w
     = (Ret false, w).
Proof.
  intros Ho Hall. unfold run. split.
  - unfold TaxonSet.has_taxa.
    cbn [TaxonSet.with_taxa TaxonSet.with_oids TaxonSet.with_labels default].
    step (read_set_step _ _ _ Ho).
    destruct (mapM_read_attribute oid w _ Hall) as (xs1 & Hrun1 & Hxs1).
    destruct (mapM_read_attribute label w _ Hall) as (xs & Hrun & Hxs).
    step Hrun1. step Hrun. eexists. split; [done|].
    cbn [TaxonSet.issubset forallb andb]. rewrite issubset_true.
    split; intros H l Hl.
    + apply H in Hl. apply list_elem_of_fmap in Hl as (x & -> & Hx).
      apply list_elem_of_lookup in Hx as [i Hi].
      destruct (Forall2_lookup_r _ _ _ _ _ Hxs Hi) as (t & Ht & Htx).
      exists t, x. split; [by eapply list_elem_of_lookup_2|done].
    + destruct (H l Hl) as (t & x & Hin & Hx & <-).
      apply list_elem_of_lookup in Hin as [i Hi].
      destruct (Forall2_lookup_l _ _ _ _ _ Hxs Hi) as (x' & Hx' & Htx).
      pose proof (eq_trans (eq_sym Hx) Htx) as [= <-].
      apply list_elem_of_fmap. exists x. split; [done|].
      by eapply list_elem_of_lookup_2.
  - unfold TaxonSet.has_taxon. simpl. step (read_set_step _ _ _ Ho).
    clear. induction (members o) as [|t ms IH]; [done|].
    cbn [TaxonSet.any_match]. unfold TaxonSet.taxon_matches.
    by rewrite (bind_ret_step _ _ w false w) by done.
Qed.

Lemma has_taxa_labels_all_present_witness :
  (exists b, run (TaxonSet.has_taxa 0
                    (TaxonSet.mkHasTaxaKw None None (Some [Some "C"; Some "A"]%string)))
               registry_abc = (Ret b, registry_abc)
     /\ (b = true <->
         forall l, l ∈ [Some "C"; Some "A"]%string ->
           exists t x, t ∈ [0; 1; 2] /\ taxa registry_abc !! t = Some x /\ label x = l))
  /\ run (TaxonSet.has_taxon 0 (TaxonSet.mkHasTaxonKw None None (Some None))) registry_abc
     = (Ret false, registry_abc).
Proof.
  apply (has_taxa_labels_all_present registry_abc 0
           (mkTaxonSet [0; 1; 2] None (OidAuto 0) true) [Some "C"; Some "A"]%string).
  - reflexivity.
  - repeat constructor; simpl; lia.
Defined.

(** ** Mutators: [add_taxon] and [new_taxon] *)

Lemma NoDup_snoc_fresh (ms : list tref) (n : tref) :
  NoDup ms -> Forall (fun t => t < n) ms -> NoDup (ms ++ [n]).
Proof.
  intros Hnd Hall. apply NoDup_app. split; [done|]. split; [|apply NoDup_singleton].
  intros x Hx Hin. apply list_elem_of_singleton in Hin as ->.
  rewrite Forall_forall in Hall. apply Hall in Hx. lia.
Qed.

(** X7: on an unlocked registry without duplicates, [add_taxon(t)] puts [t]
    last when it is not yet a member and changes nothing when it is; the
    registry stays without duplicates, a second [add_taxon(t)] changes
    nothing, and [has_taxon(taxon=t)] is then [True]. *)
Theorem add_taxon_adds_once (w : World) (self : sref) (o : TaxonSetObj) (t : tref) :
  sets w !! self = Some o ->
  _is_mutable o = true ->
  NoDup (members o) ->
  let ms' := if decide (t ∈ members o) then members o else members o ++ [t] in
  let w' := mkWorld (taxa w) (<[self := set_members o ms']> (sets w)) in
  run (TaxonSet.add_taxon self t) w = (Ret tt, w')
  /\ NoDup ms'
  /\ run (TaxonSet.add_taxon self t) w' = (Ret tt, w')
  /\ run (TaxonSet.has_taxon self (TaxonSet.mkHasTaxonKw (Some (Some t)) None None)) w'
     = (Ret true, w').
Proof.
  intros Ho Hm Hnd ms' w'. unfold run.
  assert (Hlt : self < length (sets w)) by (by eapply lookup_lt_Some).
  assert (Ho' : sets w' !! self = Some (set_members o ms'))
    by (by apply list_lookup_insert_eq).
  assert (Hin : t ∈ ms').
  { subst ms'. case_decide; [done|]. apply elem_of_app. right. left. }
  split; [|split; [|split]].
  - unfold TaxonSet.add_taxon. step (read_set_step _ _ _ Ho). rewrite Hm.
    cbn [negb]. unfold OrderedSet.add. step (read_set_step _ _ _ Ho).
    unfold OrderedSet.add_item. subst w' ms'. case_decide as Ht.
    + by rewrite (proj2 (mem_true _ _) Ht).
    + by rewrite (proj2 (mem_false _ _) Ht).
  - subst ms'. case_decide as Ht; [done|].
    apply NoDup_app. split; [done|]. split; [|apply NoDup_singleton].
    intros x Hx Hx'. by apply list_elem_of_singleton in Hx' as ->.
  - unfold TaxonSet.add_taxon. step (read_set_step _ _ _ Ho'). cbn [set_members _is_mutable].
    rewrite Hm. cbn [negb]. unfold OrderedSet.add. step (read_set_step _ _ _ Ho').
    unfold OrderedSet.add_item. cbn [set_members members].
    rewrite (proj2 (mem_true _ _) Hin). unfold write_set, w'. cbn [taxa sets].
    by rewrite list_insert_insert_eq.
  - rewrite (has_taxon_identity_run _ _ _ t Ho'). cbn [set_members members].
    by rewrite bool_decide_eq_true_2.
Qed.

Lemma add_taxon_adds_once_witness :
  let w1 := after (Taxon.__init__ (Some "D"%string) None) registry_abc in
  let w' := mkWorld (taxa w1) [mkTaxonSet [0; 1; 2; 3] None (OidAuto 0) true] in
  run (TaxonSet.add_taxon 0 3) w1 = (Ret tt, w')
  /\ NoDup [0; 1; 2; 3]
  /\ run (TaxonSet.add_taxon 0 3) w' = (Ret tt, w')
  /\ run (TaxonSet.has_taxon 0 (TaxonSet.mkHasTaxonKw (Some (Some 3)) None None)) w'
     = (Ret true, w').
Proof.
  apply (add_taxon_adds_once
           (after (Taxon.__init__ (Some "D"%string) None) registry_abc) 0
           (mkTaxonSet [0; 1; 2] None (OidAuto 0) true) 3).
  - reflexivity.
  - reflexivity.
  - apply NoDup_ListNoDup. repeat constructor; simpl; lia.
Defined.

Lemma new_taxon_run_id (w : World) (self : sref) (o : TaxonSetObj)
    (lbl : option string) (id : option oid_t) :
  sets w !! self = Some o ->
  _is_mutable o = true ->
  allocated w o ->
  TaxonSet.new_taxon self lbl id false w =
    (Ret (length (taxa w)),
     mkWorld (taxa w ++ [mkTaxon lbl (default (OidAuto (length (taxa w))) id) None])
       (<[self := set_members o (members o ++ [length (taxa w)])]> (sets w))).
Proof.
  intros Ho Hm Hall. unfold TaxonSet.new_taxon.
  step (read_set_step _ _ _ Ho). rewrite Hm. cbn [negb].
  rewrite (bind_ret_step _ _ w false w) by done. cbv iota.
  set (w1 := mkWorld (taxa w ++ [mkTaxon lbl (default (OidAuto (length (taxa w))) id) None])
               (sets w)).
  rewrite (bind_ret_step _ _ w (length (taxa w)) w1) by done.
  by step (add_fresh_run w1 self o (length (taxa w)) Ho Hall).
Qed.

Lemma index_of_app_l (u : tref) (ms ks : list tref) :
  u ∈ ms -> OrderedSet.index_of u (ms ++ ks) = OrderedSet.index_of u ms.
Proof.
  induction ms as [|y ms IH]; [by intros ?%not_elem_of_nil|].
  intros Hin. cbn [app OrderedSet.index_of]. case_decide; [done|].
  apply elem_of_cons in Hin as [->|Hin]; [done|]. by rewrite IH.
Qed.

Lemma index_of_snoc_fresh (n : tref) (ms : list tref) :
  n ∉ ms -> OrderedSet.index_of n (ms ++ [n]) = Some (length ms).
Proof.
  induction ms as [|y ms IH]; intros Hn.
  - simpl. by rewrite decide_True.
  - apply not_elem_of_cons in Hn as [Hne Hn]. cbn [app OrderedSet.index_of length].
    rewrite decide_False by done. by rewrite IH.
Qed.

Lemma taxon_bitmask_result (w : World) (self : sref) (o : TaxonSetObj)
    (u : tref) (x : TaxonObj) :
  sets w !! self = Some o ->
  taxa w !! u = Some x ->
  result (TaxonSet.taxon_bitmask self u) w =
    match clade_mask x with
    | Some m => Ret m
    | None => match OrderedSet.index_of u (members o) with
              | Some i => Ret (bit i)
              | None => Raise (ValueError TaxonNotFound)
              end
    end.
Proof.
  intros Ho Hx. unfold result. destruct (clade_mask x) as [m|] eqn:Hc.
  - by rewrite (taxon_bitmask_cached _ _ _ _ _ Hx Hc).
  - rewrite (taxon_bitmask_uncached _ _ _ _ _ Ho Hx Hc).
    by destruct (OrderedSet.index_of u (members o)).
Qed.

Lemma ones_succ (n : nat) : Z.ones (Z.of_nat (S n)) = (2 * Z.ones (Z.of_nat n) + 1)%Z.
Proof.
  rewrite !Z.ones_equiv, Nat2Z.inj_succ, Z.pow_succ_r by lia. lia.
Qed.

(** X8: on an unlocked registry, [new_taxon(label, oid)] creates a taxon
    without a [clade_mask] and puts it last, so the positions of the members
    before it do not move: [taxon_bitmask] gives for each of them what it gave
    before, the new taxon gets the next bit, [1 << n] for [n] earlier
    members, and [all_taxa_bitmask()] goes from [a] to [2 * a + 1]. *)
Theorem new_taxon_appends
    (w : World) (self : sref) (o : TaxonSetObj) (lbl : option string)
    (id : option oid_t) :
  sets w !! self = Some o ->
  _is_mutable o = true ->
  allocated w o ->
  NoDup (members o) ->
  let t := length (taxa w) in
  let w' := mkWorld (taxa w ++ [mkTaxon lbl (default (OidAuto t) id) None])
              (<[self := set_members o (members o ++ [t])]> (sets w)) in
  run (TaxonSet.new_taxon self lbl id false) w = (Ret t, w')
  /\ NoDup (members o ++ [t])
  /\ result (TaxonSet.taxon_bitmask self t) w' = Ret (bit (length (members o)))
  /\ (forall u, u ∈ members o ->
        result (TaxonSet.taxon_bitmask self u) w'
        = result (TaxonSet.taxon_bitmask self u) w)
  /\ (forall a, result (TaxonSet.all_taxa_bitmask self) w = Ret a ->
        result (TaxonSet.all_taxa_bitmask self) w' = Ret (2 * a + 1)%Z).
Proof.
  intros Ho Hm Hall Hnd t w'.
  assert (Hlt : self < length (sets w)) by (by eapply lookup_lt_Some).
  assert (Ho' : sets w' !! self = Some (set_members o (members o ++ [t])))
    by (by apply list_lookup_insert_eq).
  assert (Hfresh : t ∉ members o).
  { intros Hin. unfold allocated in Hall. rewrite Forall_forall in Hall.
    apply Hall in Hin. unfold t in Hin. lia. }
  split; [by apply new_taxon_run_id|].
  split; [by apply NoDup_snoc_fresh|].
  split; [|split].
  - rewrite (taxon_bitmask_result w' self _ t _ Ho' (lookup_fresh _ _)).
    cbn [clade_mask set_members members]. by rewrite index_of_snoc_fresh.
  - intros u Hu. unfold allocated in Hall. rewrite Forall_forall in Hall.
    destruct (allocated_lookup _ _ (Hall u Hu)) as [x Hx].
    assert (Hx' : taxa w' !! u = Some x).
    { cbn [w' taxa]. rewrite lookup_app_l; [done|by apply Hall]. }
    rewrite (taxon_bitmask_result w' self _ u x Ho' Hx').
    rewrite (taxon_bitmask_result w self _ u x Ho Hx).
    cbn [set_members members]. by rewrite index_of_app_l.
  - intros a Ha. unfold result in *.
    rewrite (all_taxa_bitmask_run _ _ _ Ho) in Ha. injection Ha as <-.
    rewrite (all_taxa_bitmask_run _ _ _ Ho'). cbn [set_members members fst].
    rewrite length_app. cbn [length]. rewrite Nat.add_1_r. by rewrite ones_succ.
Qed.

Lemma new_taxon_appends_witness :
  let w' := mkWorld (taxa registry_abc ++ [mkTaxon (Some "D"%string) (OidAuto 3) None])
              [mkTaxonSet [0; 1; 2; 3] None (OidAuto 0) true] in
  run (TaxonSet.new_taxon 0 (Some "D"%string) None false) registry_abc = (Ret 3, w')
  /\ NoDup [0; 1; 2; 3]
  /\ result (TaxonSet.taxon_bitmask 0 3) w' = Ret (bit 3)
  /\ (forall u, u ∈ [0; 1; 2] ->
        result (TaxonSet.taxon_bitmask 0 u) w'
        = result (TaxonSet.taxon_bitmask 0 u) registry_abc)
  /\ (forall a, result (TaxonSet.all_taxa_bitmask 0) registry_abc = Ret a ->
        result (TaxonSet.all_taxa_bitmask 0) w' = Ret (2 * a + 1)%Z).
Proof.
  apply (new_taxon_appends registry_abc 0
           (mkTaxonSet [0; 1; 2] None (OidAuto 0) true) (Some "D"%string) None).
  - reflexivity.
  - reflexivity.
  - repeat constructor; simpl; lia.
  - apply NoDup_ListNoDup. repeat constructor; simpl; lia.
Defined.

Lemma get_taxon_label_run (w : World) (self : sref) (o : TaxonSetObj)
    (lbl : option string) :
  sets w !! self = Some o ->
  TaxonSet.get_taxon self (TaxonSet.mkLookupKw None (Some lbl)) w
  = TaxonSet.first_match None lbl (members o) w.
Proof.
  intros Ho. unfold TaxonSet.get_taxon. simpl. by step (read_set_step _ _ _ Ho).
Qed.

Lemma label_exists_check (w : World) (self : sref) (o : TaxonSetObj)
    (lbl : option string) (r : option tref) :
  sets w !! self = Some o ->
  TaxonSet.first_match None lbl (members o) w = (Ret r, w) ->
  (r <- TaxonSet.get_taxon self (TaxonSet.mkLookupKw None (Some lbl)) ;;
   ret (bool_decide (is_Some r))) w
  = (Ret (bool_decide (is_Some r)), w).
Proof.
  intros Ho Hrun. rewrite <- (get_taxon_label_run _ _ _ _ Ho) in Hrun. by step Hrun.
Qed.

Lemma first_match_no_criterion (w : World) (ms : list tref) :
  Forall (fun t => t < length (taxa w)) ms ->
  TaxonSet.first_match None None ms w = (Ret None, w).
Proof.
  induction 1 as [|t ms Ht _ IH]; [done|].
  destruct (allocated_lookup _ _ Ht) as [x Hx].
  cbn [TaxonSet.first_match]. by step (read_taxon_step _ _ _ Hx).
Qed.

(** X9: with [error_if_label_exists], [new_taxon(label=l)] on an unlocked
    registry raises the [KeyError] "already defined" and changes nothing when
    a member carries the label [l], and does what it does without the flag
    when none carries it.  With the label [None] the flag has no effect, also
    when members without a label exist. *)
Theorem new_taxon_error_if_label_exists
    (w : World) (self : sref) (o : TaxonSetObj) (l : string) (id : option oid_t) :
  sets w !! self = Some o ->
  _is_mutable o = true ->
  allocated w o ->
  ((exists t, t ∈ members o /\ labelled w l t) ->
   run (TaxonSet.new_taxon self (Some l) id true) w
   = (Raise (KeyError LabelAlreadyDefined), w))
  /\ ((forall t, t ∈ members o -> ~ labelled w l t) ->
      run (TaxonSet.new_taxon self (Some l) id true) w
      = run (TaxonSet.new_taxon self (Some l) id false) w)
  /\ run (TaxonSet.new_taxon self None id true) w
     = run (TaxonSet.new_taxon self None id false) w.
Proof.
  intros Ho Hm Hall. unfold run, TaxonSet.new_taxon.
  step (read_set_step _ _ _ Ho). rewrite Hm. cbn [negb].
  split; [|split].
  - intros (t & Hin & Hlab).
    destruct (first_match_label_spec w l _ Hall) as ([u|] & Hrun & Hr).
    + by rewrite (bind_ret_step _ _ _ _ _ (label_exists_check _ _ _ _ _ Ho Hrun)).
    + by destruct (Hr t Hin).
  - intros Hno.
    pose proof (first_match_none l w _ (not_labelled_Forall _ _ _ Hall Hno)) as Hrun.
    rewrite (bind_ret_step _ _ _ _ _ (label_exists_check _ _ _ _ _ Ho Hrun)).
    by rewrite (bind_ret_step _ _ w false w) by done.
  - rewrite (bind_ret_step _ _ _ _ _
               (label_exists_check _ _ _ _ _ Ho (first_match_no_criterion w _ Hall))).
    by rewrite (bind_ret_step _ _ w false w) by done.
Qed.

Lemma new_taxon_error_if_label_exists_witness :
  run (TaxonSet.new_taxon 0 (Some "B"%string) None true) registry_abc
  = (Raise (KeyError LabelAlreadyDefined), registry_abc).
Proof.
  apply (proj1 (new_taxon_error_if_label_exists registry_abc 0
                  (mkTaxonSet [0; 1; 2] None (OidAuto 0) true) "B" None
                  eq_refl eq_refl
                  ltac:(repeat constructor; simpl; lia))).
  exists 1. split.
  - apply list_elem_of_In. simpl. lia.
  - exists (mkTaxon (Some "B"%string) (OidAuto 1) None). split; reflexivity.
Defined.

(** X10: labels are not keys.  Two calls of [new_taxon(label=l)] on an
    unlocked registry in which no member carries [l] give two different
    members that both carry [l], in the order of the calls, and
    [get_taxon(label=l)] then returns the first of them. *)
Theorem new_taxon_twice_same_label
    (w : World) (self : sref) (o : TaxonSetObj) (l : string) :
  sets w !! self = Some o ->
  _is_mutable o = true ->
  allocated w o ->
  (forall t, t ∈ members o -> ~ labelled w l t) ->
  let t := length (taxa w) in
  let prog := (a <- TaxonSet.new_taxon self (Some l) None false ;;
               b <- TaxonSet.new_taxon self (Some l) None false ;;
               g <- TaxonSet.get_taxon self (TaxonSet.by_label_only l) ;;
               ret (a, b, g)) in
  result prog w = Ret (t, S t, Some t)
  /\ members_of (after prog w) self = Some (members o ++ [t; S t])
  /\ labelled (after prog w) l t
  /\ labelled (after prog w) l (S t).
Proof.
  intros Ho Hm Hall Hno t prog.
  assert (Hlt : self < length (sets w)) by (by eapply lookup_lt_Some).
  set (x1 := mkTaxon (Some l) (OidAuto t) None).
  set (o1 := set_members o (members o ++ [t])).
  set (w1 := mkWorld (taxa w ++ [x1]) (<[self := o1]> (sets w))).
  assert (H1 : TaxonSet.new_taxon self (Some l) None false w = (Ret t, w1))
    by (by apply new_taxon_run_id).
  assert (Ho1 : sets w1 !! self = Some o1) by (by apply list_lookup_insert_eq).
  assert (Hall1 : allocated w1 o1).
  { unfold allocated. cbn [w1 o1 taxa set_members members]. rewrite length_app.
    apply Forall_app. split.
    - eapply Forall_impl; [exact Hall|]. intros u Hu. simpl in Hu. lia.
    - apply Forall_singleton. fold t. simpl. lia. }
  set (x2 := mkTaxon (Some l) (OidAuto (S t)) None).
  set (o2 := set_members o (members o ++ [t; S t])).
  set (w2 := mkWorld (taxa w ++ [x1; x2]) (<[self := o2]> (sets w))).
  assert (H2 : TaxonSet.new_taxon self (Some l) None false w1 = (Ret (S t), w2)).
  { rewrite (new_taxon_run_id w1 self o1 (Some l) None Ho1 Hm Hall1).
    cbn [w1 o1 taxa sets set_members members default].
    rewrite length_app, list_insert_insert_eq, <- !app_assoc. cbn [length app].
    fold t. by rewrite Nat.add_1_r. }
  assert (Ho2 : sets w2 !! self = Some o2) by (by apply list_lookup_insert_eq).
  assert (Ht : taxa w2 !! t = Some x1) by apply list_lookup_middle, eq_refl.
  assert (HSt : taxa w2 !! S t = Some x2).
  { cbn [w2 taxa]. change [x1; x2] with ([x1] ++ [x2]). rewrite app_assoc.
    apply list_lookup_middle. rewrite length_app. simpl. fold t. lia. }
  assert (H3 : TaxonSet.get_taxon self (TaxonSet.by_label_only l) w2 = (Ret (Some t), w2)).
  { unfold TaxonSet.by_label_only. rewrite (get_taxon_label_run _ _ _ _ Ho2).
    cbn [o2 set_members members].
    rewrite first_match_app_skip; [by eapply first_match_here|].
    pose proof (not_labelled_Forall _ _ _ Hall Hno) as Hno'.
    unfold allocated in Hall. rewrite Forall_forall in Hall, Hno'.
    apply Forall_forall. intros u Hin.
    destruct (Hno' u Hin) as (x & Hx & Hl). exists x. split; [|done].
    cbn [w2 taxa]. rewrite lookup_app_l; [done|by apply Hall]. }
  assert (Hprog : prog w = (Ret (t, S t, Some t), w2)).
  { unfold prog. step H1. step H2. by step H3. }
  unfold result, after, members_of. rewrite Hprog. cbn [fst snd].
  split; [done|]. split; [by rewrite Ho2|]. split; [by exists x1|by exists x2].
Qed.

Lemma new_taxon_twice_same_label_witness :
  let prog := (a <- TaxonSet.new_taxon 0 (Some "D"%string) None false ;;
               b <- TaxonSet.new_taxon 0 (Some "D"%string) None false ;;
               g <- TaxonSet.get_taxon 0 (TaxonSet.by_label_only "D") ;;
               ret (a, b, g)) in
  result prog registry_abc = Ret (3, 4, Some 3)
  /\ members_of (after prog registry_abc) 0 = Some [0; 1; 2; 3; 4]
  /\ labelled (after prog registry_abc) "D" 3
  /\ labelled (after prog registry_abc) "D" 4.
Proof.
  apply (new_taxon_twice_same_label registry_abc 0
           (mkTaxonSet [0; 1; 2] None (OidAuto 0) true) "D").
  - reflexivity.
  - reflexivity.
  - repeat constructor; simpl; lia.
  - intros t Hin (x & Hx & Hl). apply list_elem_of_In in Hin. simpl in Hin.
    destruct Hin as [<-|[<-|[<-|[]]]]; by injection Hx as <-.
Defined.

(** ** Bitmasks of the members *)

(** The three ways a call of [taxon_bitmask] can go. *)
Lemma taxon_bitmask_cases (w : World) (self : sref) (t : tref) :
  (exists x m, taxa w !! t = Some x /\ clade_mask x = Some m
               /\ TaxonSet.taxon_bitmask self t w = (Ret m, w))
  \/ (exists x i, taxa w !! t = Some x /\ clade_mask x = None
                  /\ TaxonSet.taxon_bitmask self t w
                     = (Ret (bit i),
                        mkWorld (<[t := set_clade_mask x (bit i)]> (taxa w)) (sets w)))
  \/ (exists r, TaxonSet.taxon_bitmask self t w = (r, w) /\ forall m, r <> Ret m).
Proof.
  destruct (taxa w !! t) as [x|] eqn:Hx.
  - destruct (clade_mask x) as [m|] eqn:Hc.
    + left. exists x, m. by rewrite (taxon_bitmask_cached _ _ _ _ _ Hx Hc).
    + destruct (sets w !! self) as [o|] eqn:Ho.
      * rewrite (taxon_bitmask_uncached _ _ _ _ _ Ho Hx Hc).
        destruct (OrderedSet.index_of t (members o)) as [i|].
        -- right. left. by exists x, i.
        -- right. right. by eexists.
      * right. right. exists Stuck. split; [|done].
        unfold TaxonSet.taxon_bitmask.
        assert (Hget : TaxonSet.get_clade_mask t w = (Raise AttributeError, w)).
        { unfold TaxonSet.get_clade_mask. step (read_taxon_step _ _ _ Hx).
          by rewrite Hc. }
        erewrite bind_ret_step.
        2:{ unfold try_except. by rewrite (bind_raise_step _ _ _ _ _ Hget). }
        cbv beta iota. unfold try_except, OrderedSet.index.
        unfold bind at 1. unfold bind at 1. unfold read_set. by rewrite Ho.
  - right. right. exists Stuck. split; [|done].
    unfold TaxonSet.taxon_bitmask, try_except, TaxonSet.get_clade_mask.
    unfold bind at 1. unfold bind at 1. unfold bind at 1. unfold read_taxon.
    by rewrite Hx.
Qed.



(** X12: [taxon_bitmask] writes nothing but the [clade_mask] of the taxon it
    is asked about: the registries are as before, no taxon is created, every
    other taxon is as before, and the taxon keeps its label, its id and a
    [clade_mask] it had. *)
Theorem taxon_bitmask_only_caches (w : World) (self : sref) (t : tref) :
  let w' := after (TaxonSet.taxon_bitmask self t) w in
  sets w' = sets w
  /\ length (taxa w') = length (taxa w)
  /\ (forall u, u <> t -> taxa w' !! u = taxa w !! u)
  /\ (forall x, taxa w !! t = Some x ->
        exists x', taxa w' !! t = Some x' /\ label x' = label x /\ oid x' = oid x
                   /\ forall m, clade_mask x = Some m -> clade_mask x' = Some m).
Proof.
  intros w'. subst w'. unfold after.
  destruct (taxon_bitmask_cases w self t)
    as [(x & m0 & Hx & Hc & Hrun)|[(x & i & Hx & Hc & Hrun)|(r & Hrun & Hr)]];
    rewrite Hrun; cbn [fst snd taxa sets].
  - repeat split; try done. intros x' Hx'. by exists x'.
  - split; [done|]. split; [by rewrite length_insert|]. split.
    + intros u Hu. by rewrite list_lookup_insert_ne.
    + intros x' Hx'. pose proof (eq_trans (eq_sym Hx) Hx') as [= <-].
      exists (set_clade_mask x (bit i)). split.
      * apply list_lookup_insert_eq. by eapply lookup_lt_Some.
      * repeat split; try done. intros m Hm. congruence.
  - repeat split; try done. intros x' Hx'. by exists x'.
Qed.

Lemma bit_pow (i : nat) : bit i = (2 ^ Z.of_nat i)%Z.
Proof. unfold bit. by rewrite Z.shiftl_1_l. Qed.

Lemma ones_succ_lor (n : nat) :
  Z.ones (Z.of_nat (S n)) = Z.lor (Z.ones (Z.of_nat n)) (bit n).
Proof.
  apply Z.bits_inj'. intros j Hj.
  rewrite Z.lor_spec, bit_pow, Z.pow2_bits_eqb, !Z.testbit_ones_nonneg by lia.
  destruct (Z.ltb_spec j (Z.of_nat (S n))), (Z.ltb_spec j (Z.of_nat n)),
    (Z.eqb_spec (Z.of_nat n) j); simpl; lia || reflexivity.
Qed.

Lemma foldr_lor_bits (n : nat) (b : Z) :
  foldr Z.lor b (bit <$> seq 0 n) = Z.lor (Z.ones (Z.of_nat n)) b.
Proof.
  revert b. induction n as [|n IH]; intros b.
  - by rewrite Z.lor_0_l.
  - rewrite seq_S, fmap_app, foldr_app. cbn [foldr fmap list_fmap plus].
    by rewrite IH, ones_succ_lor, Z.lor_assoc.
Qed.

Lemma bits_disjoint (i j : nat) : i <> j -> Z.land (bit i) (bit j) = 0%Z.
Proof.
  intros Hne. apply Z.bits_inj'. intros k Hk.
  rewrite Z.land_spec, !bit_pow, !Z.pow2_bits_eqb, Z.bits_0 by lia.
  destruct (Z.eqb_spec (Z.of_nat i) k), (Z.eqb_spec (Z.of_nat j) k);
    simpl; lia || reflexivity.
Qed.

Lemma mapM_taxon_bitmask (self : sref) (o : TaxonSetObj) (suf : list tref) :
  forall (pre : list tref) (w : World),
  sets w !! self = Some o ->
  members o = pre ++ suf ->
  NoDup (pre ++ suf) ->
  Forall (uncached w) suf ->
  result (mapM (TaxonSet.taxon_bitmask self) suf) w
  = Ret (bit <$> seq (length pre) (length suf)).
Proof.
  induction suf as [|u suf IH]; intros pre w Ho Hms Hnd Hun; [done|].
  apply Forall_cons in Hun as [(x & Hx & Hc) Hun].
  cbn [mapM length seq fmap list_fmap]. unfold result.
  pose proof (taxon_bitmask_uncached _ _ _ _ _ Ho Hx Hc) as Hrun.
  rewrite Hms, (index_of_lookup u (pre ++ u :: suf) (length pre) Hnd) in Hrun
    by (by apply list_lookup_middle).
  cbn zeta in Hrun. step Hrun. set (w1 := mkWorld _ _).
  assert (Hrest : result (mapM (TaxonSet.taxon_bitmask self) suf) w1
                  = Ret (bit <$> seq (length (pre ++ [u])) (length suf))).
  { apply IH.
    - done.
    - by rewrite Hms, <- app_assoc.
    - by rewrite <- app_assoc.
    - apply NoDup_app in Hnd as (_ & _ & Hnd'). apply NoDup_cons in Hnd' as [Hu _].
      rewrite Forall_forall in Hun. apply Forall_forall. intros v Hv.
      destruct (Hun v Hv) as (y & Hy & Hcy). exists y. split; [|done].
      cbn [w1 taxa]. rewrite list_lookup_insert_ne; [done|]. by intros ->. }
  unfold result in Hrest. rewrite length_app in Hrest. cbn [length] in Hrest.
  rewrite Nat.add_1_r in Hrest.
  destruct (mapM (TaxonSet.taxon_bitmask self) suf w1) as [[ys|e|] w2] eqn:Hm;
    cbn [fst] in Hrest; try done.
  injection Hrest as ->. rewrite (bind_ret_step _ _ _ _ _ Hm). done.
Qed.

(** X13: in a registry without duplicates whose members carry no
    [clade_mask] yet, asking [taxon_bitmask] for every member in order gives
    [1 << 0], [1 << 1], ..., [1 << (n-1)]; no two of these masks share a bit,
    and together (bitwise or) they make [all_taxa_bitmask()]. *)
Theorem member_bitmasks_partition_all_taxa
    (w : World) (self : sref) (o : TaxonSetObj) :
  sets w !! self = Some o ->
  NoDup (members o) ->
  Forall (uncached w) (members o) ->
  let masks := bit <$> seq 0 (length (members o)) in
  result (mapM (TaxonSet.taxon_bitmask self) (members o)) w = Ret masks
  /\ (forall i j mi mj, i <> j -> masks !! i = Some mi -> masks !! j = Some mj ->
        Z.land mi mj = 0%Z)
  /\ result (TaxonSet.all_taxa_bitmask self) w = Ret (foldr Z.lor 0%Z masks).
Proof.
  intros Ho Hnd Hun masks. split; [|split].
  - by apply (mapM_taxon_bitmask self o (members o) [] w).
  - intros i j mi mj Hne Hi Hj. subst masks.
    apply list_lookup_fmap_Some in Hi as (i' & -> & Hi).
    apply list_lookup_fmap_Some in Hj as (j' & -> & Hj).
    apply lookup_seq in Hi as [-> _]. apply lookup_seq in Hj as [-> _].
    by apply bits_disjoint.
  - unfold result. rewrite (all_taxa_bitmask_run _ _ _ Ho). cbn [fst].
    subst masks. by rewrite foldr_lor_bits, Z.lor_0_r.
Qed.

Lemma member_bitmasks_partition_all_taxa_witness :
  let masks := bit <$> seq 0 3 in
  result (mapM (TaxonSet.taxon_bitmask 0) [0; 1; 2]) registry_abc = Ret masks
  /\ (forall i j mi mj, i <> j -> masks !! i = Some mi -> masks !! j = Some mj ->
        Z.land mi mj = 0%Z)
  /\ result (TaxonSet.all_taxa_bitmask 0) registry_abc = Ret (foldr Z.lor 0%Z masks).
Proof.
  apply (member_bitmasks_partition_all_taxa registry_abc 0
           (mkTaxonSet [0; 1; 2] None (OidAuto 0) true)).
  - reflexivity.
  - apply NoDup_ListNoDup. repeat constructor; simpl; lia.
  - repeat constructor; eexists; (split; [reflexivity|reflexivity]).
Defined.

Lemma complement_twice_bits (n m : Z) :
  (0 <= n)%Z ->
  Z.land (Z.lnot (Z.land (Z.lnot m) (Z.ones n))) (Z.ones n) = Z.land m (Z.ones n).
Proof.
  intros Hn. apply Z.bits_inj'. intros i Hi.
  rewrite !Z.land_spec, Z.lnot_spec, Z.land_spec, Z.lnot_spec by done.
  destruct (testbit_ones_cases n i Hn Hi) as [[_ ->]|[_ ->]];
    by destruct (Z.testbit m i).
Qed.

(** X14: taking the complement twice gives [m & all_taxa_bitmask()]: the
    mask [m] itself when [0 <= m <= all_taxa_bitmask()], and [m] without its
    bits from the member count on otherwise. *)
Theorem complement_twice (w : World) (self : sref) (a m : Z) :
  result (TaxonSet.all_taxa_bitmask self) w = Ret a ->
  run (c <- TaxonSet.complement_split_bitmask self m ;;
       TaxonSet.complement_split_bitmask self c) w = (Ret (Z.land m a), w)
  /\ ((0 <= m <= a)%Z -> Z.land m a = m).
Proof.
  intros (o & Ho & ->)%all_taxa_bitmask_inv. unfold run. split.
  - step (complement_split_bitmask_run w self o m Ho).
    rewrite (complement_split_bitmask_run w self o _ Ho).
    by rewrite complement_twice_bits by lia.
  - intros Hm. rewrite Z.land_ones by lia. rewrite Z.ones_equiv in Hm.
    apply Z.mod_small. lia.
Qed.

Lemma complement_twice_witness :
  run (c <- TaxonSet.complement_split_bitmask 0 13 ;;
       TaxonSet.complement_split_bitmask 0 c) registry_abc
  = (Ret (Z.land 13 7), registry_abc)
  /\ ((0 <= 13 <= 7)%Z -> Z.land 13 7 = 13%Z).
Proof.
  apply (complement_twice registry_abc 0 7 13). reflexivity.
Defined.

(** ** Construction, copies and order *)

(** X15: the labels given to the constructor come back from [labels()]:
    [TaxonSet(ls).labels()] is [ls], in the same order and with the same
    repetitions, since every string makes a taxon of its own. *)
Theorem labels_of_constructed (w : World) (ls : list string)
    (kw : TaxonSet.init_kwargs) :
  result (s <- TaxonSet.__init__ [VStr <$> ls] kw ;; TaxonSet.labels s) w = Ret ls.
Proof.
  unfold result. step (new_from_labels_run w ls kw). set (w1 := mkWorld _ _).
  unfold TaxonSet.labels.
  rewrite (bind_ret_step _ _ _ _ _ (read_set_step w1 _ _ (lookup_fresh _ _))).
  cbn [members].
  replace (length ls) with (length (fresh_taxa (length (taxa w)) (Some <$> ls)))
    by (by rewrite length_fresh_taxa, length_fmap).
  rewrite (mapM_str_label _ (taxa w) w1 eq_refl). cbn [fst].
  rewrite str_label_fresh_taxa, <- list_fmap_compose.
  f_equal. by apply list_fmap_id.
Qed.

Lemma to_taxon_given_run (w : World) (ts : list tref) :
  mapM TaxonSet._to_taxon (VTaxon <$> ts) w = (Ret ts, w).
Proof.
  induction ts as [|a ts IH]; [done|].
  cbn [fmap list_fmap mapM]. rewrite (bind_ret_step _ _ w a w) by done.
  by rewrite (bind_ret_step _ _ _ _ _ IH).
Qed.

Lemma deepcopy_run (w : World) (self : sref) (o : TaxonSetObj) (memo : memo_t) :
  sets w !! self = Some o ->
  NoDup (members o) ->
  let c := length (sets w) in
  TaxonSet.__deepcopy__ self memo w =
    (Ret (c, memo_set (ObjOid (set_oid o)) (ObjOid (OidAuto c))
               (memo_set (ObjTaxonSet self) (ObjTaxonSet c) memo)),
     mkWorld (taxa w)
       (sets w ++ [mkTaxonSet (members o) (set_label o) (OidAuto c) (_is_mutable o)])).
Proof.
  intros Ho Hnd c. unfold TaxonSet.__deepcopy__.
  step (read_set_step _ _ _ Ho). unfold TaxonSet.__init__.
  set (oc := mkTaxonSet (members o) (set_label o) (OidAuto c) (_is_mutable o)).
  set (w1 := mkWorld (taxa w) (sets w ++ [oc])).
  assert (Hinit : (ts <- mapM TaxonSet._to_taxon (VTaxon <$> members o) ;;
                   TaxonSet.alloc (OrderedSet.of_list ts)
                     (TaxonSet.mkInitKw None (set_label o) (Some (_is_mutable o)))) w
                  = (Ret c, w1)).
  { step (to_taxon_given_run w (members o)). unfold TaxonSet.alloc.
    by rewrite of_list_NoDup. }
  step Hinit.
  by rewrite (bind_ret_step _ _ _ _ _ (read_set_step w1 c oc (lookup_fresh _ _))).
Qed.

(** X16: [copy.deepcopy] of a registry without duplicates makes a new
    registry object with the same members in the same order, the same label
    and the same mutability; the members are the same [Taxon] objects, no
    taxon is created and the original is untouched; [memo] maps the original
    to the copy.  [taxon_bitmask] gives the same through the copy as through
    the original, and a taxon created in the copy does not enter the
    original. *)
Theorem deepcopy_shares_taxa
    (w : World) (self : sref) (o : TaxonSetObj) (memo : memo_t) :
  sets w !! self = Some o ->
  NoDup (members o) ->
  allocated w o ->
  let c := length (sets w) in
  let w' := after (TaxonSet.__deepcopy__ self memo) w in
  (exists memo', result (TaxonSet.__deepcopy__ self memo) w = Ret (c, memo')
                 /\ memo_get (ObjTaxonSet self) memo' = Some (ObjTaxonSet c))
  /\ c <> self
  /\ taxa w' = taxa w
  /\ sets w' !! self = Some o
  /\ sets w' !! c
     = Some (mkTaxonSet (members o) (set_label o) (OidAuto c) (_is_mutable o))
  /\ (forall t x, taxa w !! t = Some x ->
        result (TaxonSet.taxon_bitmask c t) w' = result (TaxonSet.taxon_bitmask self t) w)
  /\ (forall lbl,
        members_of (after (TaxonSet.new_taxon c lbl None false) w') self
        = Some (members o)).
Proof.
  intros Ho Hnd Hall c w'. subst w'. unfold result, after.
  rewrite (deepcopy_run w self o memo Ho Hnd). cbn [fst snd]. fold c.
  set (oc := mkTaxonSet (members o) (set_label o) (OidAuto c) (_is_mutable o)).
  set (w1 := mkWorld (taxa w) (sets w ++ [oc])).
  assert (Hlt : self < c) by (by eapply lookup_lt_Some).
  assert (Ho1 : sets w1 !! self = Some o) by (cbn; by rewrite lookup_app_l).
  assert (Hc1 : sets w1 !! c = Some oc) by apply lookup_fresh.
  split.
  { eexists. split; [done|]. unfold memo_set. cbn [memo_get].
    rewrite decide_False by done. by rewrite decide_True. }
  split; [lia|]. split; [done|]. split; [done|]. split; [done|]. split.
  - intros t x Hx.
    pose proof (taxon_bitmask_result w1 c oc t x Hc1 Hx) as H1.
    pose proof (taxon_bitmask_result w self o t x Ho Hx) as H2.
    unfold result in H1, H2. by rewrite H1, H2.
  - intros lbl. unfold members_of. destruct (_is_mutable o) eqn:Hm.
    + rewrite (new_taxon_run_id w1 c oc lbl None Hc1 eq_refl Hall). cbn [snd sets].
      rewrite list_lookup_insert_ne by lia. exact (f_equal (fmap members) Ho1).
    + unfold TaxonSet.new_taxon. step (read_set_step _ _ _ Hc1).
      cbn [oc _is_mutable negb raise snd]. exact (f_equal (fmap members) Ho1).
Qed.

Lemma deepcopy_shares_taxa_witness :
  let w' := after (TaxonSet.__deepcopy__ 0 []) registry_abc in
  (exists memo', result (TaxonSet.__deepcopy__ 0 []) registry_abc = Ret (1, memo')
                 /\ memo_get (ObjTaxonSet 0) memo' = Some (ObjTaxonSet 1))
  /\ 1 <> 0
  /\ taxa w' = taxa registry_abc
  /\ sets w' !! 0 = Some (mkTaxonSet [0; 1; 2] None (OidAuto 0) true)
  /\ sets w' !! 1 = Some (mkTaxonSet [0; 1; 2] None (OidAuto 1) true)
  /\ (forall t x, taxa registry_abc !! t = Some x ->
        result (TaxonSet.taxon_bitmask 1 t) w'
        = result (TaxonSet.taxon_bitmask 0 t) registry_abc)
  /\ (forall lbl,
        members_of (after (TaxonSet.new_taxon 1 lbl None false) w') 0
        = Some [0; 1; 2]).
Proof.
  apply (deepcopy_shares_taxa registry_abc 0
           (mkTaxonSet [0; 1; 2] None (OidAuto 0) true) []).
  - reflexivity.
  - apply NoDup_ListNoDup. repeat constructor; simpl; lia.
  - repeat constructor; simpl; lia.
Defined.

Lemma compare_refl (s : string) : String.compare s s = Eq.
Proof.
  pose proof (String.compare_antisym s s) as H.
  by destruct (String.compare s s).
Qed.

Lemma cmp_str_antisym (s1 s2 : string) : Taxon.cmp_str s2 s1 = (- Taxon.cmp_str s1 s2)%Z.
Proof.
  unfold Taxon.cmp_str. rewrite (String.compare_antisym s1 s2).
  by destruct (String.compare s2 s1).
Qed.

Lemma cmp_str_zero (s1 s2 : string) : Taxon.cmp_str s1 s2 = 0%Z <-> s1 = s2.
Proof.
  unfold Taxon.cmp_str. split.
  - destruct (String.compare s1 s2) eqn:Hc; try done.
    intros _. by apply String.compare_eq_iff.
  - intros ->. by rewrite compare_refl.
Qed.

Lemma str_lt_lts (s1 s2 : string) :
  str_lt s1 s2 <-> OrderedTypeEx.String_as_OT.lts s1 s2.
Proof.
  split; induction 1; by constructor.
Qed.

Lemma cmp_str_before (s1 s2 : string) : Taxon.cmp_str s1 s2 = (-1)%Z <-> str_lt s1 s2.
Proof.
  rewrite str_lt_lts.
  rewrite <- (OrderedTypeEx.String_as_OT.cmp_lt s1 s2).
  unfold Taxon.cmp_str, OrderedTypeEx.String_as_OT.cmp.
  by destruct (String.compare s1 s2).
Qed.

Lemma cmp_str_after (s1 s2 : string) : Taxon.cmp_str s1 s2 = 1%Z <-> str_lt s2 s1.
Proof.
  rewrite <- cmp_str_before, (cmp_str_antisym s1 s2). lia.
Qed.

Lemma str_lt_trans (s1 s2 s3 : string) : str_lt s1 s2 -> str_lt s2 s3 -> str_lt s1 s3.
Proof.
  rewrite !str_lt_lts. apply OrderedTypeEx.String_as_OT.lt_trans.
Qed.

Lemma cmp_run (w : World) (t1 t2 : tref) (x1 x2 : TaxonObj) :
  taxa w !! t1 = Some x1 ->
  taxa w !! t2 = Some x2 ->
  Taxon.cmp t1 t2 w = (Ret (Taxon.cmp_str (Taxon.str_label x1) (Taxon.str_label x2)), w).
Proof.
  intros H1 H2. unfold Taxon.cmp.
  step (read_taxon_step _ _ _ H1). by step (read_taxon_step _ _ _ H2).
Qed.

(** X17: [Taxon.cmp] orders taxa by [str(label)] and reads only.  It returns
    -1 exactly when the text of the first label comes before that of the
    second in the order of strings, 1 exactly when it comes after, and 0
    exactly when the two texts are the same, so a taxon without a label and a
    taxon labelled "None" compare as equal; swapping the arguments negates
    the result; and the order is transitive. *)
Theorem taxon_cmp_orders_by_label_text
    (w : World) (t1 t2 : tref) (x1 x2 : TaxonObj) :
  taxa w !! t1 = Some x1 ->
  taxa w !! t2 = Some x2 ->
  exists c, run (Taxon.cmp t1 t2) w = (Ret c, w)
    /\ run (Taxon.cmp t2 t1) w = (Ret (- c)%Z, w)
    /\ (c = -1 \/ c = 0 \/ c = 1)%Z
    /\ (c = 0%Z <-> Taxon.str_label x1 = Taxon.str_label x2)
    /\ (label x1 = None -> label x2 = Some "None"%string -> c = 0%Z)
    /\ (c = (-1)%Z <-> str_lt (Taxon.str_label x1) (Taxon.str_label x2))
    /\ (c = 1%Z <-> str_lt (Taxon.str_label x2) (Taxon.str_label x1))
    /\ (forall t3 x3, taxa w !! t3 = Some x3 ->
          c = (-1)%Z ->
          result (Taxon.cmp t2 t3) w = Ret (-1)%Z ->
          result (Taxon.cmp t1 t3) w = Ret (-1)%Z).
Proof.
  intros H1 H2. exists (Taxon.cmp_str (Taxon.str_label x1) (Taxon.str_label x2)).
  unfold run, result. rewrite (cmp_run _ _ _ _ _ H1 H2), (cmp_run _ _ _ _ _ H2 H1).
  split; [done|]. split; [by rewrite cmp_str_antisym|].
  split; [unfold Taxon.cmp_str; destruct (String.compare _ _); lia|].
  split; [apply cmp_str_zero|].
  split.
  { intros Hn Hs. apply cmp_str_zero. unfold Taxon.str_label. by rewrite Hn, Hs. }
  split; [apply cmp_str_before|]. split; [apply cmp_str_after|].
  intros t3 x3 H3 H12. rewrite (cmp_run _ _ _ _ _ H2 H3), (cmp_run _ _ _ _ _ H1 H3).
  cbn [fst]. intros [= H23]. f_equal.
  apply cmp_str_before. apply cmp_str_before in H12, H23. by eapply str_lt_trans.
Qed.

Lemma taxon_cmp_orders_by_label_text_witness :
  exists c, run (Taxon.cmp 0 2) registry_abc = (Ret c, registry_abc)
    /\ run (Taxon.cmp 2 0) registry_abc = (Ret (- c)%Z, registry_abc)
    /\ (c = -1 \/ c = 0 \/ c = 1)%Z
    /\ (c = 0%Z <-> "A"%string = "C"%string)
    /\ (Some "A"%string = None -> Some "C"%string = Some "None"%string -> c = 0%Z)
    /\ (c = (-1)%Z <-> str_lt "A" "C")
    /\ (c = 1%Z <-> str_lt "C" "A")
    /\ (forall t3 x3, taxa registry_abc !! t3 = Some x3 ->
          c = (-1)%Z ->
          result (Taxon.cmp 2 t3) registry_abc = Ret (-1)%Z ->
          result (Taxon.cmp 0 t3) registry_abc = Ret (-1)%Z).
Proof.
  apply (taxon_cmp_orders_by_label_text registry_abc 0 2
           (mkTaxon (Some "A"%string) (OidAuto 0) None)
           (mkTaxon (Some "C"%string) (OidAuto 2) None)).
  - reflexivity.
  - reflexivity.
Defined.

(** ** The lock, [new_taxon_set], [clear] and [reindex_taxa] *)

Lemma set_is_locked_run (w : World) (self : sref) (o : TaxonSetObj) (v : bool) :
  sets w !! self = Some o ->
  TaxonSet.set_is_locked self v w
  = (Ret tt, mkWorld (taxa w) (<[self := set_is_mutable o v]> (sets w))).
Proof.
  intros Ho. unfold TaxonSet.set_is_locked. by step (read_set_step _ _ _ Ho).
Qed.

(** X18: the setter of [is_locked] stores its value in [_is_mutable]: after
    [ts.is_locked = v] the property reads [v] and the members are as before;
    after [ts.is_locked = False] the registry refuses [new_taxon], as after
    [lock()], and after [ts.is_locked = True] it accepts it, as after
    [unlock()]. *)
Theorem set_is_locked_sets_mutability
    (w : World) (self : sref) (o : TaxonSetObj) (v : bool) :
  sets w !! self = Some o ->
  allocated w o ->
  let w' := after (TaxonSet.set_is_locked self v) w in
  result (TaxonSet.set_is_locked self v ;;; TaxonSet.get_is_locked self) w = Ret v
  /\ members_of w' self = Some (members o)
  /\ (v = false ->
      after (TaxonSet.lock self) w = w'
      /\ forall lbl id e,
           run (TaxonSet.new_taxon self lbl id e) w'
           = (Raise (KeyError ImmutableTaxonSet), w'))
  /\ (v = true ->
      after (TaxonSet.unlock self) w = w'
      /\ forall lbl, result (TaxonSet.new_taxon self lbl None false) w'
                     = Ret (length (taxa w))).
Proof.
  intros Ho Hall w'. subst w'. unfold result, after, run, members_of.
  assert (Hlt : self < length (sets w)) by (by eapply lookup_lt_Some).
  rewrite (set_is_locked_run _ _ _ v Ho). cbn [snd]. set (w1 := mkWorld _ _).
  assert (Ho1 : sets w1 !! self = Some (set_is_mutable o v))
    by (by apply list_lookup_insert_eq).
  split; [|split; [|split]].
  - step (set_is_locked_run _ _ _ v Ho). fold w1.
    by rewrite (get_is_locked_run _ _ _ Ho1).
  - exact (f_equal (fmap members) Ho1).
  - intros ->. split; [by rewrite (lock_run _ _ _ Ho)|].
    intros lbl id e. unfold TaxonSet.new_taxon. by step (read_set_step _ _ _ Ho1).
  - intros ->. split; [by rewrite (unlock_run _ _ _ Ho)|].
    intros lbl. by rewrite (new_taxon_run_id w1 self _ lbl None Ho1 eq_refl Hall).
Qed.

Lemma set_is_locked_sets_mutability_witness :
  let w' := after (TaxonSet.set_is_locked 0 true) locked_singleton in
  result (TaxonSet.set_is_locked 0 true ;;; TaxonSet.get_is_locked 0) locked_singleton
  = Ret true
  /\ members_of w' 0 = Some [0]
  /\ (true = false ->
      after (TaxonSet.lock 0) locked_singleton = w'
      /\ forall lbl id e,
           run (TaxonSet.new_taxon 0 lbl id e) w'
           = (Raise (KeyError ImmutableTaxonSet), w'))
  /\ (true = true ->
      after (TaxonSet.unlock 0) locked_singleton = w'
      /\ forall lbl, result (TaxonSet.new_taxon 0 lbl None false) w' = Ret 1).
Proof.
  apply (set_is_locked_sets_mutability locked_singleton 0
           (mkTaxonSet [0] None (OidAuto 0) false) true).
  - reflexivity.
  - repeat constructor; simpl; lia.
Defined.

(** X19: [new_taxon_set(ntax)] with [ntax <= 0] and no [label_func] raises
    the [ValueError] of [math.log]; with a [label_func] it returns a registry
    without members. *)
Theorem new_taxon_set_nonpositive
    (int_log10 : Z -> Z) (w : World) (ntax : Z) (f : N -> string) :
  (ntax <= 0)%Z ->
  result (new_taxon_set int_log10 ntax None) w = Raise (ValueError MathDomainError)
  /\ result (s <- new_taxon_set int_log10 ntax (Some f) ;; TaxonSet.labels s) w = Ret []
  /\ result (s <- new_taxon_set int_log10 ntax (Some f) ;; TaxonSet.all_taxa_bitmask s) w
     = Ret 0%Z.
Proof.
  intros Hle. split; [|split].
  - unfold result, new_taxon_set. step (new_empty_run w TaxonSet.no_kwargs).
    erewrite bind_raise_step; [done|].
    by rewrite (proj2 (Z.leb_le _ _) Hle).
  - rewrite (new_taxon_set_labels int_log10 w ntax (Some f)) by done.
    by replace (Z.to_nat ntax) with 0 by lia.
  - unfold result.
    step (new_taxon_set_run int_log10 w ntax (Some f) ltac:(done)).
    replace (Z.to_nat ntax) with 0 by lia. cbn [seq fmap list_fmap length].
    set (w1 := mkWorld _ _).
    by rewrite (all_taxa_bitmask_run w1 _ _ (lookup_fresh _ _)).
Qed.

Lemma new_taxon_set_nonpositive_witness :
  result (new_taxon_set float_int_log10 0 None) empty_world
  = Raise (ValueError MathDomainError)
  /\ result (s <- new_taxon_set float_int_log10 0 (Some pretty) ;; TaxonSet.labels s)
       empty_world = Ret []
  /\ result (s <- new_taxon_set float_int_log10 0 (Some pretty) ;;
             TaxonSet.all_taxa_bitmask s) empty_world = Ret 0%Z.
Proof.
  apply (new_taxon_set_nonpositive float_int_log10 empty_world 0 pretty). lia.
Defined.

Lemma fresh_taxa_uncached (addr : nat) (ls : list (option string)) :
  Forall (fun x => clade_mask x = None) (fresh_taxa addr ls).
Proof.
  revert addr. induction ls as [|l ls IH]; intros addr; constructor; [done|apply IH].
Qed.

Lemma uncached_fresh (old objs : list TaxonObj) (ss : list TaxonSetObj) :
  Forall (fun x => clade_mask x = None) objs ->
  Forall (uncached (mkWorld (old ++ objs) ss)) (seq (length old) (length objs)).
Proof.
  intros Hobjs. apply Forall_forall. intros t Ht.
  apply elem_of_seq in Ht as [Hge Hlt].
  destruct (lookup_lt_is_Some_2 objs (t - length old) ltac:(lia)) as [x Hx].
  exists x. split.
  - cbn [taxa]. by rewrite lookup_app_r by lia.
  - rewrite Forall_forall in Hobjs. apply Hobjs. by eapply list_elem_of_lookup_2.
Qed.

(** X20: [new_taxon_set(ntax)], with a [label_func] or with [ntax > 0],
    returns a new unlocked registry whose members are [ntax] new taxa; it
    leaves the taxa and the registries that existed as they were.  Asked in
    order, the members get the masks [1 << 0] to [1 << (ntax-1)], and
    [all_taxa_bitmask()] is [2^ntax - 1]. *)
Theorem new_taxon_set_registry
    (int_log10 : Z -> Z) (w : World) (ntax : Z) (label_func : option (N -> string)) :
  (label_func = None -> (0 < ntax)%Z) ->
  let n := Z.to_nat ntax in
  let s := length (sets w) in
  let first := length (taxa w) in
  let w' := after (new_taxon_set int_log10 ntax label_func) w in
  result (new_taxon_set int_log10 ntax label_func) w = Ret s
  /\ sets w' !! s = Some (mkTaxonSet (seq first n) None (OidAuto s) true)
  /\ (forall s0, s0 < s -> sets w' !! s0 = sets w !! s0)
  /\ (forall t, t < first -> taxa w' !! t = taxa w !! t)
  /\ result (mapM (TaxonSet.taxon_bitmask s) (seq first n)) w' = Ret (bit <$> seq 0 n)
  /\ result (TaxonSet.all_taxa_bitmask s) w' = Ret (2 ^ Z.of_nat n - 1)%Z.
Proof.
  intros Hpos n s first w'. subst w'. unfold result at 1, after.
  rewrite (new_taxon_set_run int_log10 w ntax label_func Hpos). cbn [fst snd].
  set (ls := _ <$> seq 0 (Z.to_nat ntax)).
  assert (Hn : length ls = n) by (subst ls; by rewrite length_fmap, length_seq).
  rewrite Hn. fold s first.
  set (o := mkTaxonSet (seq first n) None (OidAuto s) true).
  set (w1 := mkWorld _ _).
  assert (Ho : sets w1 !! s = Some o) by apply lookup_fresh.
  split; [done|]. split; [done|]. split; [|split; [|split]].
  - intros s0 Hs0. cbn [w1 sets]. by rewrite lookup_app_l.
  - intros t Ht. cbn [w1 taxa]. by rewrite lookup_app_l.
  - pose proof (mapM_taxon_bitmask s o (seq first n) [] w1 Ho eq_refl
                  (NoDup_seq first n)) as Hmasks.
    rewrite length_seq in Hmasks. apply Hmasks.
    rewrite <- Hn, <- (length_fresh_taxa first ls).
    apply uncached_fresh, fresh_taxa_uncached.
  - unfold result. rewrite (all_taxa_bitmask_run _ _ _ Ho). cbn [fst o members].
    by rewrite length_seq, Z.ones_equiv, <- Z.sub_1_r.
Qed.

Lemma new_taxon_set_registry_witness :
  let w' := after (new_taxon_set float_int_log10 5 None) registry_abc in
  result (new_taxon_set float_int_log10 5 None) registry_abc = Ret 1
  /\ sets w' !! 1 = Some (mkTaxonSet [3; 4; 5; 6; 7] None (OidAuto 1) true)
  /\ (forall s0, s0 < 1 -> sets w' !! s0 = sets registry_abc !! s0)
  /\ (forall t, t < 3 -> taxa w' !! t = taxa registry_abc !! t)
  /\ result (mapM (TaxonSet.taxon_bitmask 1) [3; 4; 5; 6; 7]) w' = Ret (bit <$> seq 0 5)
  /\ result (TaxonSet.all_taxa_bitmask 1) w' = Ret (2 ^ Z.of_nat 5 - 1)%Z.
Proof.
  apply (new_taxon_set_registry float_int_log10 registry_abc 5 None). lia.
Defined.

Lemma lookup_odd_positions_aux (l : list tref) :
  (forall k, odd_positions l !! k = l !! (2 * k + 1))
  /\ (forall a k, odd_positions (a :: l) !! k = (a :: l) !! (2 * k + 1)).
Proof.
  induction l as [|b l [IH1 IH2]].
  - split; [done|]. intros a k. by rewrite Nat.add_1_r.
  - split; [apply IH2|]. intros a [|k]; [done|].
    cbn [odd_positions]. replace (2 * S k + 1) with (S (S (2 * k + 1))) by lia.
    apply IH1.
Qed.

Lemma lookup_odd_positions (l : list tref) :
  forall k, odd_positions l !! k = l !! (2 * k + 1).
Proof. apply lookup_odd_positions_aux. Qed.

(** X21: on a registry without duplicates [clear()] returns without an
    error, also when the registry is locked, and keeps every second member:
    what stays are the members that stood at the positions 1, 3, 5, ..., in
    their order, half of the members rounded down.  No [Taxon] object is
    touched, so every [clade_mask] stays, and the lock is as it was. *)
Theorem clear_keeps_every_second_member (w : World) (self : sref) (o : TaxonSetObj) :
  sets w !! self = Some o ->
  NoDup (members o) ->
  let w' := after (TaxonSet.clear self) w in
  result (TaxonSet.clear self) w = Ret tt
  /\ (exists ms, members_of w' self = Some ms
                 /\ length ms = length (members o) / 2
                 /\ forall k, ms !! k = members o !! (2 * k + 1))
  /\ taxa w' = taxa w
  /\ _is_mutable <$> sets w' !! self = Some (_is_mutable o).
Proof.
  intros Ho Hnd w'. subst w'.
  destruct (clear_leaves_odd_positions self w o Ho Hnd) as (Hres & Hms & Htaxa).
  split; [done|]. split; [|split; [done|]].
  - exists (odd_positions (members o)). split; [done|].
    split; [apply length_odd_positions|apply lookup_odd_positions].
  - unfold after. rewrite (clear_run _ _ _ Ho). cbn [snd sets].
    by rewrite list_lookup_insert_eq by (by eapply lookup_lt_Some).
Qed.

Lemma clear_keeps_every_second_member_witness :
  let w' := after (TaxonSet.clear 0) registry_abc in
  result (TaxonSet.clear 0) registry_abc = Ret tt
  /\ (exists ms, members_of w' 0 = Some ms
                 /\ length ms = length [0; 1; 2] / 2
                 /\ forall k, ms !! k = [0; 1; 2] !! (2 * k + 1))
  /\ taxa w' = taxa registry_abc
  /\ _is_mutable <$> sets w' !! 0 = Some true.
Proof.
  apply (clear_keeps_every_second_member registry_abc 0
           (mkTaxonSet [0; 1; 2] None (OidAuto 0) true)).
  - reflexivity.
  - apply NoDup_ListNoDup. repeat constructor; simpl; lia.
Defined.

(** X22: [reindex_taxa] on an object of the class [TaxonSetLinked] itself
    never returns: the call of [reindex_subcomponent_taxa], defined without
    [self], raises [TypeError].  By then a [taxon_set] that was given has
    replaced the attribute, and with [clear] true (the default) [clear()] has
    run on it; with [clear] false nothing in the store has changed. *)
Theorem reindex_taxa_raises_in_base_class
    (w : World) (self : TaxonSetLinked.obj) (taxon_set : option sref) (clear : bool) :
  let r := TaxonSetLinked.reindex_taxa TaxonSetLinked.reindex_subcomponent_taxa
             self taxon_set clear in
  is_Some (sets w !! TaxonSetLinked.taxon_set r.1) ->
  TaxonSetLinked.taxon_set r.1 = default (TaxonSetLinked.taxon_set self) taxon_set
  /\ result r.2 w = Raise TypeError
  /\ after r.2 w
     = if clear then after (TaxonSet.clear (TaxonSetLinked.taxon_set r.1)) w else w.
Proof.
  intros r [o Ho]. subst r. unfold TaxonSetLinked.reindex_taxa in *. cbn [fst snd] in *.
  split; [by destruct taxon_set|]. unfold result, after. destruct clear.
  - rewrite (bind_ret_step _ _ _ _ _ (clear_run _ _ _ Ho)).
    by rewrite (clear_run _ _ _ Ho).
  - done.
Qed.

Lemma reindex_taxa_raises_in_base_class_witness :
  let r := TaxonSetLinked.reindex_taxa TaxonSetLinked.reindex_subcomponent_taxa
             (TaxonSetLinked.mkLinked None None 5) (Some 0) true in
  TaxonSetLinked.taxon_set r.1 = 0
  /\ result r.2 registry_abc = Raise TypeError
  /\ after r.2 registry_abc = after (TaxonSet.clear 0) registry_abc.
Proof.
  apply (reindex_taxa_raises_in_base_class registry_abc
           (TaxonSetLinked.mkLinked None None 5) (Some 0) true).
  exists (mkTaxonSet [0; 1; 2] None (OidAuto 0) true). reflexivity.
Defined.

Lemma to_taxon_other_raises (pre post : list pyval) : forall w,
  Forall (fun v => v <> VOther) pre ->
  exists w', mapM TaxonSet._to_taxon (pre ++ VOther :: post) w
             = (Raise (ValueError CannotConvert), w')
             /\ sets w' = sets w.
Proof.
  induction pre as [|v pre IH]; intros w Hpre.
  - exists w. by split.
  - apply Forall_cons in Hpre as [Hv Hpre]. cbn [app mapM].
    destruct v as [t|l|]; [| |done].
    + rewrite (bind_ret_step _ _ w t w) by done.
      destruct (IH w Hpre) as (w' & Hrun & Hsets). exists w'.
      split; [|done]. by rewrite (bind_raise_step _ _ _ _ _ Hrun).
    + set (w1 := mkWorld (taxa w ++ [mkTaxon (Some l) (OidAuto (length (taxa w))) None])
                   (sets w)).
      rewrite (bind_ret_step _ _ w (length (taxa w)) w1) by done.
      destruct (IH w1 Hpre) as (w' & Hrun & Hsets). exists w'.
      split; [|done]. by rewrite (bind_raise_step _ _ _ _ _ Hrun).
Qed.

(** X23: the constructor fails as a whole.  With more than one positional
    argument it raises [TypeError]; with an iterable that holds something
    that is neither a [Taxon] nor a string it raises the [ValueError] "cannot
    convert".  In both cases no registry is created, and the registries that
    exist are as before. *)
Theorem constructor_rejects_bad_arguments
    (w : World) (kw : TaxonSet.init_kwargs) (a1 a2 : list pyval)
    (more : list (list pyval)) (items : list pyval) :
  VOther ∈ items ->
  run (TaxonSet.__init__ (a1 :: a2 :: more) kw) w = (Raise TypeError, w)
  /\ result (TaxonSet.__init__ [items] kw) w = Raise (ValueError CannotConvert)
  /\ sets (after (TaxonSet.__init__ [items] kw) w) = sets w.
Proof.
  intros Hin. split; [done|].
  assert (Hsplit : exists pre post, items = pre ++ VOther :: post
                                    /\ Forall (fun v => v <> VOther) pre).
  { clear -Hin. induction items as [|v items IH]; [by apply not_elem_of_nil in Hin|].
    destruct v as [t|l|].
    - apply elem_of_cons in Hin as [|Hin]; [done|].
      destruct (IH Hin) as (pre & post & -> & Hpre).
      exists (VTaxon t :: pre), post. split; [done|]. by constructor.
    - apply elem_of_cons in Hin as [|Hin]; [done|].
      destruct (IH Hin) as (pre & post & -> & Hpre).
      exists (VStr l :: pre), post. split; [done|]. by constructor.
    - exists [], items. by split. }
  destruct Hsplit as (pre & post & -> & Hpre).
  destruct (to_taxon_other_raises pre post w Hpre) as (w' & Hrun & Hsets).
  unfold result, after, TaxonSet.__init__.
  by rewrite (bind_raise_step _ _ _ _ _ Hrun).
Qed.

Lemma constructor_rejects_bad_arguments_witness :
  run (TaxonSet.__init__ ([VStr "A"] :: [VStr "B"] :: []) TaxonSet.no_kwargs) registry_abc
  = (Raise TypeError, registry_abc)
  /\ result (TaxonSet.__init__ [[VStr "A"; VOther; VTaxon 0]] TaxonSet.no_kwargs)
       registry_abc = Raise (ValueError CannotConvert)
  /\ sets (after (TaxonSet.__init__ [[VStr "A"; VOther; VTaxon 0]] TaxonSet.no_kwargs)
             registry_abc) = sets registry_abc.
Proof.
  apply (constructor_rejects_bad_arguments registry_abc TaxonSet.no_kwargs
           [VStr "A"] [VStr "B"] [] [VStr "A"; VOther; VTaxon 0]).
  apply list_elem_of_In. simpl. tauto.
Defined.

(** X24: [new_taxon_set(ntax, label_func)] labels its taxa
    [label_func(1)], ..., [label_func(ntax)], in this order, whatever the
    store holds already and whether or not the labels differ from each
    other. *)
Theorem new_taxon_set_custom_labels
    (int_log10 : Z -> Z) (w : World) (ntax : Z) (f : N -> string) :
  result (s <- new_taxon_set int_log10 ntax (Some f) ;; TaxonSet.labels s) w
  = Ret ((fun i => f (N.of_nat (i + 1))) <$> seq 0 (Z.to_nat ntax)).
Proof. by rewrite (new_taxon_set_labels int_log10 w ntax (Some f)). Qed.
